(** * Spectral raster enhancement: a shallow embedding of
      [SpectralRasterEnhancementAlgorithm.processAlgorithm]

    The plugin reads every band of a raster as a float64 array, enhances the
    valid (non-nodata) samples with one of three methods and writes the
    result as an 8-bit GeoTIFF band.

    Layout of the development:
    - [Arith]: the arithmetic the NumPy code runs on, as an interface, with
      two implementations: [binary64] (IEEE 754 double precision, the
      arithmetic of the program) and [exactQ] (rationals: the formulas
      with rounding and overflow left out, which is not what the program
      computes);
    - the NumPy operations the source calls ([np_percentile], [np_clip],
      [np_histogram], [np_interp], ...), written after NumPy's own
      implementation;
    - the three enhancement branches and the body of the band loop;
    - the run ([processAlgorithm]) as a function from the caller's world
      (parameters, raster, cancellation answers) to a trace of events, the
      output dataset and the returned dictionary;
    - the parameters [initAlgorithm] declares, and example rasters;
    - the theorems: what every run leaves behind, the properties of the
      specification, facts of binary64, the formulas of the equalization
      in exact arithmetic, and concrete runs. *)

From Stdlib Require Import String.
From Stdlib Require Import ZArith List Bool Lia.
From Stdlib Require Import Floats.
From Stdlib Require Import QArith Qround Lqa.
Import ListNotations.
#[local] Open Scope Z_scope.

(** ** The arithmetic interface *)

(** [F] is the type of float64 values as NumPy and Python see them. *)
Class Arith (F : Type) : Type := {
  fadd : F -> F -> F;
  fsub : F -> F -> F;
  fmul : F -> F -> F;
  fdiv : F -> F -> F;
  (** [==], [<], [<=]: all false when an operand is NaN *)
  feqb : F -> F -> bool;
  fltb : F -> F -> bool;
  fleb : F -> F -> bool;
  fisnan : F -> bool;
  fisfinite : F -> bool;
  (** conversion of a Python int / NumPy int64 to float64 *)
  of_Z : Z -> F;
  (** the integer part (truncation toward zero) of a finite value *)
  ftrunc : F -> option Z;
  (** [np.floor] followed by [astype(np.intp)], on a finite value *)
  ffloor : F -> option Z;
  (** what the C cast [(npy_ubyte)x] yields where C leaves it undefined
      (NaN, infinities, integer part outside [0, 255]); it depends on the
      machine *)
  cast_invalid : F -> Z
}.

(** *** IEEE 754 binary64 *)

Module B64.

Definition of_Z (z : Z) : float :=
  if z <? 0 then PrimFloat.opp (PrimFloat.of_uint63 (Uint63.of_Z (- z)))
  else PrimFloat.of_uint63 (Uint63.of_Z z).

Definition is_finite (x : float) : bool :=
  match Prim2SF x with
  | S754_zero _ | S754_finite _ _ _ => true
  | _ => false
  end.

(** magnitude of [m * 2^e], rounded toward zero / toward infinity *)
Definition mag_down (m : positive) (e : Z) : Z :=
  if 0 <=? e then Z.shiftl (Zpos m) e else Z.shiftr (Zpos m) (- e).

Definition mag_exact (m : positive) (e : Z) : bool :=
  (0 <=? e) || (Z.shiftl (mag_down m e) (- e) =? Zpos m).

Definition trunc (x : float) : option Z :=
  match Prim2SF x with
  | S754_zero _ => Some 0
  | S754_finite s m e =>
      Some (if s then - mag_down m e else mag_down m e)
  | _ => None
  end.

Definition floor (x : float) : option Z :=
  match Prim2SF x with
  | S754_zero _ => Some 0
  | S754_finite s m e =>
      Some (if s
            then (if mag_exact m e then - mag_down m e
                  else - mag_down m e - 1)
            else mag_down m e)
  | _ => None
  end.

Definition is_odd_integer (y : float) : bool :=
  match trunc y with
  | Some z => Z.odd z && PrimFloat.eqb y (of_Z z)
  | None => false
  end.

(** The results of C's [pow] that do not depend on the C library: the
    cases C (Annex F) and IEEE 754 fix, and [pow(x, 1) = x], which every
    library with an error under one unit in the last place returns since
    the exact result is representable. The general case is the library's
    own [libm_pow]. *)
Definition pow (libm_pow : float -> float -> float) (x y : float) : float :=
  if PrimFloat.eqb y 0 then 1%float
  else if PrimFloat.eqb x 1 then 1%float
  else if PrimFloat.is_nan x || PrimFloat.is_nan y then PrimFloat.nan
  else if PrimFloat.eqb y 1 then x
  else if PrimFloat.eqb x 0 && PrimFloat.ltb 0 y
       then (if is_odd_integer y then x else 0%float)
  else libm_pow x y.

End B64.

Definition binary64 (machine_cast : float -> Z) : Arith float := {|
  fadd := PrimFloat.add;
  fsub := PrimFloat.sub;
  fmul := PrimFloat.mul;
  fdiv := PrimFloat.div;
  feqb := PrimFloat.eqb;
  fltb := PrimFloat.ltb;
  fleb := PrimFloat.leb;
  fisnan := PrimFloat.is_nan;
  fisfinite := B64.is_finite;
  of_Z := B64.of_Z;
  ftrunc := B64.trunc;
  ffloor := B64.floor;
  cast_invalid := machine_cast
|}.

(** The C library's [pow], which [np.power] applies elementwise. *)
Class Pow (F : Type) : Type := { fpow : F -> F -> F }.

Definition binary64_pow (libm_pow : float -> float -> float) : Pow float :=
  {| fpow := B64.pow libm_pow |}.

(** *** Exact rational arithmetic

    The same operations without rounding, NaN or infinities. Division by
    zero is outside this instance: [Qdiv] gives 0 there, so it is used only
    where the divisor is known not to vanish. *)

Definition Q_of_Z (z : Z) : Q := inject_Z z.

Definition Q_trunc (q : Q) : Z := Z.quot (Qnum q) (Zpos (Qden q)).

Definition exactQ : Arith Q := {|
  fadd := Qplus;
  fsub := Qminus;
  fmul := Qmult;
  fdiv := Qdiv;
  feqb := Qeq_bool;
  fltb := fun a b => negb (Qle_bool b a);
  fleb := Qle_bool;
  fisnan := fun _ => false;
  fisfinite := fun _ => true;
  of_Z := Q_of_Z;
  ftrunc := fun q => Some (Q_trunc q);
  ffloor := fun q => Some (Qfloor q);
  cast_invalid := fun q => Q_trunc q mod 256
|}.

(** ** Exceptions and results *)

(** The [ValueError]s NumPy 2 raises in the calls the algorithm makes.  Two
    of NumPy's messages quote numbers (the range, the number of bins); the
    text is not modelled, only which error it is. *)
Inductive value_error : Type :=
| PercentilesOutOfRange  (* Percentiles must be in the range [0, 100] *)
| MaxSmallerThanMin      (* max must be larger than min in range parameter *)
| RangeNotFinite         (* supplied range of [lo, hi] is not finite *)
| TooManyBins (nbins : nat).
                         (* Too many bins for data range. Cannot create
                            nbins finite-sized bins. *)

Inductive exn : Type :=
| QgsProcessingException (msg : string)
| AttributeError
| IndexError
| ValueError (why : value_error)
| ZeroDivisionError.

Inductive result (T : Type) : Type :=
| Ok (v : T)
| Raise (e : exn).
Arguments Ok {T} v.
Arguments Raise {T} e.

Definition bind {T U : Type} (c : result T) (k : T -> result U) : result U :=
  match c with
  | Ok v => k v
  | Raise e => Raise e
  end.

Declare Scope result_scope.
Delimit Scope result_scope with result.
Notation "x <- c ;; k" := (bind c (fun x => k))
  (at level 61, c at next level, right associativity) : result_scope.
Notation "' p <- c ;; k" := (bind c (fun x => match x with p => k end))
  (at level 61, p pattern, c at next level, right associativity) : result_scope.

(** ** Python and NumPy operations *)

(** [l[i]] on a Python list or a one-dimensional array: negative indices
    count from the end, anything else out of range is an [IndexError]. *)
Definition py_getitem {T : Type} (l : list T) (i : Z) : result T :=
  let n := Z.of_nat (length l) in
  let j := if i <? 0 then i + n else i in
  if (0 <=? j) && (j <? n)
  then match nth_error l (Z.to_nat j) with
       | Some v => Ok v
       | None => Raise IndexError
       end
  else Raise IndexError.

(** [a[sel]] with a boolean array [sel]: the selected values, in order. *)
Fixpoint take_where {T : Type} (sel : list bool) (a : list T) : list T :=
  match sel, a with
  | s :: sel', x :: a' => if s then x :: take_where sel' a' else take_where sel' a'
  | _, _ => []
  end.

(** [a[sel] = vals]: the selected positions receive [vals] in order. *)
Fixpoint put_where {T : Type} (sel : list bool) (a : list T) (vals : list T) : list T :=
  match sel, a with
  | s :: sel', x :: a' =>
      if s then
        match vals with
        | v :: vals' => v :: put_where sel' a' vals'
        | [] => x :: a'
        end
      else x :: put_where sel' a' vals
  | _, _ => a
  end.

(** [a[sel] = c] with a scalar [c]. *)
Fixpoint fill_where {T : Type} (sel : list bool) (a : list T) (c : T) : list T :=
  match sel, a with
  | s :: sel', x :: a' => (if s then c else x) :: fill_where sel' a' c
  | _, _ => a
  end.

(** [np.cumsum] of an integer array. *)
Fixpoint cumsum_from (acc : Z) (l : list Z) : list Z :=
  match l with
  | [] => []
  | x :: l' => (acc + x) :: cumsum_from (acc + x) l'
  end.
Definition cumsum (l : list Z) : list Z := cumsum_from 0 l.

Definition Zlist_min (l : list Z) : Z :=
  match l with [] => 0 | x :: l' => fold_left Z.min l' x end.
Definition Zlist_max (l : list Z) : Z :=
  match l with [] => 0 | x :: l' => fold_left Z.max l' x end.

(** [np.bincount(indices, minlength=n)] for indices in [0, n). *)
Definition bincount (indices : list Z) (n : nat) : list Z :=
  map (fun b => Z.of_nat (length (filter (Z.eqb (Z.of_nat b)) indices))) (seq 0 n).

Section NumPy.
Context {F : Type} {A : Arith F}.

Definition fzero : F := of_Z 0.
Definition fhalf : F := fdiv (of_Z 1) (of_Z 2).

(** [ndarray.astype(np.uint8)] on a float64 value: the C cast keeps the
    integer part when it fits a byte. *)
Definition astype_uint8 (x : F) : Z :=
  match ftrunc x with
  | Some z => if (0 <=? z) && (z <=? 255) then z else cast_invalid x
  | None => cast_invalid x
  end.

(** The reductions [ndarray.min()] and [ndarray.max()]: a NaN wins. *)
Definition np_minimum (a b : F) : F := if fleb a b || fisnan a then a else b.
Definition np_maximum (a b : F) : F := if fleb b a || fisnan a then a else b.
Definition np_min (l : list F) : F :=
  match l with [] => fzero | x :: l' => fold_left np_minimum l' x end.
Definition np_max (l : list F) : F :=
  match l with [] => fzero | x :: l' => fold_left np_maximum l' x end.

(** [np.clip(x, lo, hi)] is [min(max(x, lo), hi)] with C comparisons. *)
Definition np_clip (x lo hi : F) : F :=
  let m := if fisnan x then x else if fltb lo x then x else lo in
  if fisnan m then m else if fltb m hi then m else hi.

(** Sorting as [np.sort] / [ndarray.partition] order floats: ascending,
    NaN last. *)
Definition sort_le (a b : F) : bool := fleb a b || fisnan b.
Fixpoint insert_sorted (x : F) (l : list F) : list F :=
  match l with
  | [] => [x]
  | y :: l' => if sort_le x y then x :: y :: l' else y :: insert_sorted x l'
  end.
Definition np_sort (l : list F) : list F := fold_right insert_sorted [] l.

(** [np.lib.function_base._lerp]. *)
Definition lerp (a b t : F) : F :=
  let d := fsub b a in
  if fleb fhalf t then fsub b (fmul d (fsub (of_Z 1) t))
  else fadd a (fmul d t).

(** [np.percentile(a, q)] with the default method (linear) on a
    non-empty one-dimensional array. *)
Definition np_percentile (a : list F) (q : F) : result F :=
  let q := fdiv q (of_Z 100) in
  if negb (fleb fzero q && fleb q (of_Z 1))
  then Raise (ValueError PercentilesOutOfRange)
  else
    let n := Z.of_nat (length a) in
    let arr := np_sort a in
    let virtual := fmul (of_Z (n - 1)) q in
    let prev :=
      if fisnan virtual then -1
      else if fltb virtual fzero then 0
      else if fleb (of_Z (n - 1)) virtual then -1
      else match ffloor virtual with Some z => z | None => 0 end in
    let next :=
      if fisnan virtual then -1
      else if fltb virtual fzero then 0
      else if fleb (of_Z (n - 1)) virtual then -1
      else prev + 1 in
    let gamma := fsub virtual (of_Z prev) in
    (lo <- py_getitem arr prev ;;
     hi <- py_getitem arr next ;;
     last <- py_getitem arr (-1) ;;
     Ok (if fisnan last then last else lerp lo hi gamma))%result.

(** [np.linspace(start, stop, num)] with [num > 1]. *)
Definition np_linspace (start stop : F) (num : nat) : list F :=
  let div := of_Z (Z.of_nat num - 1) in
  let delta := fsub stop start in
  let step := fdiv delta div in
  let y := map (fun i => of_Z (Z.of_nat i)) (seq 0 num) in
  let y := if feqb step fzero
           then map (fun v => fmul (fdiv v div) delta) y
           else map (fun v => fmul v step) y in
  let y := map (fun v => fadd v start) y in
  firstn (num - 1) y ++ [stop].

(** The bin of one sample, as [np.histogram] finds it for equal-width
    bins: an estimate from the sample's position in the range, corrected
    against the bin edges. *)
Definition bin_index (edges : list F) (nbins : Z) (first last x : F) : result Z :=
  let f := fmul (fdiv (fsub x first) (fsub last first)) (of_Z nbins) in
  match ftrunc f with
  | None => Raise IndexError
  | Some i =>
      let i := if i =? nbins then i - 1 else i in
      (e <- py_getitem edges i ;;
       let i := if fltb x e then i - 1 else i in
       e' <- py_getitem edges (i + 1) ;;
       Ok (if fleb e' x && negb (i =? nbins - 1) then i + 1 else i))%result
  end.

Fixpoint bin_indices (edges : list F) (nbins : Z) (first last : F) (a : list F)
  : result (list Z) :=
  match a with
  | [] => Ok []
  | x :: a' =>
      (i <- bin_index edges nbins first last x ;;
       r <- bin_indices edges nbins first last a' ;;
       Ok (i :: r))%result
  end.

(** [np.any(bin_edges[:-1] >= bin_edges[1:])]: some edge is not below the
    next one. *)
Fixpoint some_edge_not_below_next (edges : list F) : bool :=
  match edges with
  | e :: ((e' :: _) as rest) => fleb e' e || some_edge_not_below_next rest
  | _ => false
  end.

(** [np.histogram(a, bins=nbins, range=(lo, hi))]: counts and bin edges. *)
Definition np_histogram (a : list F) (nbins : nat) (lo hi : F)
  : result (list Z * list F) :=
  if fltb hi lo
  then Raise (ValueError MaxSmallerThanMin)
  else if negb (fisfinite lo && fisfinite hi)
  then Raise (ValueError RangeNotFinite)
  else
    let first := if feqb lo hi then fsub lo fhalf else lo in
    let last := if feqb lo hi then fadd hi fhalf else hi in
    let edges := np_linspace first last (S nbins) in
    if some_edge_not_below_next edges
    then Raise (ValueError (TooManyBins nbins))
    else
      let keep := filter (fun x => fleb first x && fleb x last) a in
      (idx <- bin_indices edges (Z.of_nat nbins) first last keep ;;
       Ok (bincount idx nbins, edges))%result.

(** [np.interp(x, xp, fp)] on one sample [x], for increasing [xp]:
    the index [j] is the last one with [xp[j] <= x]. *)
Fixpoint count_le (x : F) (xp : list F) : nat :=
  match xp with
  | [] => O
  | p :: xp' => if fltb x p then O else S (count_le x xp')
  end.

Definition np_interp (xp fp : list F) (x : F) : F :=
  if fisnan x then x
  else
    let n := length xp in
    let c := count_le x xp in
    match c with
    | O => nth 0 fp fzero
    | S j =>
        if fltb (nth (n - 1) xp fzero) x then nth (n - 1) fp fzero
        else if Nat.eqb j (n - 1) then nth j fp fzero
        else if feqb (nth j xp fzero) x then nth j fp fzero
        else
          let slope := fdiv (fsub (nth (S j) fp fzero) (nth j fp fzero))
                            (fsub (nth (S j) xp fzero) (nth j xp fzero)) in
          let r := fadd (fmul slope (fsub x (nth j xp fzero))) (nth j fp fzero) in
          if fisnan r then
            let r' := fadd (fmul slope (fsub x (nth (S j) xp fzero))) (nth (S j) fp fzero) in
            if fisnan r' && feqb (nth j fp fzero) (nth (S j) fp fzero)
            then nth j fp fzero else r'
          else r
    end.

End NumPy.

(** ** The three enhancement branches

    Each takes [valid_data] (the samples outside the nodata mask, in array
    order) and gives the 8-bit values assigned to [output_data[~mask]]. *)

Section Enhancement.
Context {F : Type} {A : Arith F} {P : Pow F}.

(** The float64 value of one stretched sample, before [astype]. *)
Definition stretch_value (p_min p_max x : F) : F :=
  fmul (fdiv (fsub (np_clip x p_min p_max) p_min) (fsub p_max p_min)) (of_Z 255).

(** [method_index == 0]. *)
Definition linear_stretch (valid_data : list F) (cut_percent : F) : result (list Z) :=
  (p_min <- np_percentile valid_data cut_percent ;;
   p_max <- np_percentile valid_data (fsub (of_Z 100) cut_percent) ;;
   Ok (map (fun x => astype_uint8 (stretch_value p_min p_max x)) valid_data))%result.

(** The lookup table of the equalization: the cumulative histogram
    rescaled to [0, 255] and cut to bytes. *)
Definition scale_cdf (cdf : list Z) : list Z :=
  let cdf_min := Zlist_min cdf in
  let cdf_max := Zlist_max cdf in
  if cdf_min <? cdf_max
  then map (fun c => astype_uint8 (fdiv (of_Z ((c - cdf_min) * 255))
                                        (of_Z (cdf_max - cdf_min)))) cdf
  else map (fun _ => 0) cdf.

Definition bins_center (bins : list F) : list F :=
  map (fun ab => fdiv (fadd (fst ab) (snd ab)) (of_Z 2))
      (combine (removelast bins) (tl bins)).

(** [method_index == 1]. *)
Definition equalization (valid_data : list F) : result (list Z) :=
  ('(hist, bins) <- np_histogram valid_data 256 (np_min valid_data) (np_max valid_data) ;;
   let cdf := scale_cdf (cumsum hist) in
   let centers := bins_center bins in
   Ok (map (fun x => astype_uint8 (np_interp centers (map of_Z cdf) x)) valid_data))%result.

(** Python's [a / b] on floats. *)
Definition py_truediv (a b : F) : result F :=
  if feqb b fzero then Raise ZeroDivisionError else Ok (fdiv a b).

Definition normalize (valid_data : list F) : list F :=
  let min_val := np_min valid_data in
  let max_val := np_max valid_data in
  let range_val := fsub max_val min_val in
  if feqb range_val fzero
  then map (fun _ => fzero) valid_data
  else map (fun x => fdiv (fsub x min_val) range_val) valid_data.

(** [method_index == 2]. *)
Definition gamma_correction (valid_data : list F) (gamma : F) : result (list Z) :=
  let norm := normalize valid_data in
  (e <- py_truediv (of_Z 1) gamma ;;
   Ok (map (fun x => astype_uint8 (fmul (fpow x e) (of_Z 255))) norm))%result.

End Enhancement.

(** ** The formulas of the specification

    These follow the words of the specification, not the code; the
    theorems compare the code with them. *)

Module Spec.

(** Nearest integer of a finite binary64 value, ties to even. *)
Definition round (x : float) : option Z :=
  match Prim2SF x with
  | S754_zero _ => Some 0
  | S754_finite s m e =>
      let n :=
        if 0 <=? e then Z.shiftl (Zpos m) e
        else
          let d := Z.shiftl 1 (- e) in
          let q := Zpos m / d in
          let r := Zpos m mod d in
          if 2 * r <? d then q
          else if d <? 2 * r then q + 1
          else if Z.even q then q else q + 1 in
      Some (if s then - n else n)
  | _ => None
  end.

(** "out = round((clip(x, low, high) - low) / (high - low) * 255)" *)
Definition linear_stretch_value {A : Arith float} (low high x : float) : option Z :=
  round (fmul (fdiv (fsub (np_clip x low high) low) (fsub high low)) (of_Z 255)).

(** "clip(x, low, high)" is min(max(x, low), high) on float64: a NaN
    operand gives NaN, and of two equal operands the bound is kept. *)
Definition fmax (a b : float) : float :=
  if PrimFloat.is_nan a then a else if PrimFloat.ltb b a then a else b.
Definition fmin (a b : float) : float :=
  if PrimFloat.is_nan a then a else if PrimFloat.ltb a b then a else b.
Definition clip (x low high : float) : float := fmin (fmax x low) high.

(** "(clip(x, low, high) - low) / (high - low) * 255" as a float64 value,
    before it is made an integer. *)
Definition stretched (low high x : float) : float :=
  PrimFloat.mul
    (PrimFloat.div (PrimFloat.sub (clip x low high) low) (PrimFloat.sub high low))
    255%float.

(** The integer part of a finite float64 value: the number [+-m * 2^e]
    with its fraction dropped. NaN and the infinities have none. *)
Definition integer_part (x : float) : option Z :=
  match Prim2SF x with
  | S754_zero _ => Some 0
  | S754_finite s m e =>
      let n := if s then - Zpos m else Zpos m in
      Some (if 0 <=? e then n * 2 ^ e else Z.quot n (2 ^ (- e)))
  | _ => None
  end.

(** "plain min-max normalization scaled to [0, 255]": the value
    (x - min(V)) / (max(V) - min(V)) scaled by 255 and truncated to an
    integer. *)
Definition minmax_scaled {F : Type} {A : Arith F} (V : list F) (x : F) : Z :=
  astype_uint8 (fmul (fdiv (fsub x (np_min V)) (fsub (np_max V) (np_min V)))
                     (of_Z 255)).

End Spec.

(** ** Rasters, the caller's world and the trace of a run *)

(** What the progress channel receives; the f-strings of the source, with
    their arguments. *)
Inductive message : Type :=
| MsgProcessing (band_count : Z) (method_name : string)
| MsgBand (i band_count : Z)
| MsgEmptyBand (i : Z)
| MsgComplete
| MsgError (e : exn)
| MsgTraceback (e : exn).

(** The observable steps of a run, in the order they happen. *)
Inductive event : Type :=
| PushInfo (m : message)
| PushWarning (m : message)
| ReportError (m : message)
| IsCanceled (answer : bool)
| GdalOpen (path : string)
| GdalCreate (path : string) (cols rows band_count : Z)
| SetGeoTransform
| SetProjection
| ReadBand (i : Z)
| WriteBand (i : Z)
| SetNoDataValue (i : Z) (v : Z)
| FlushCache (i : Z)
| CloseOutput
| CloseInput
| ReleaseDatasets.

(** The three method names of [initAlgorithm]. *)
Definition methods : list string :=
  [ "Linear Stretch (Percentile)"; "Equalization"; "Gamma Correction" ]%string.

Section Run.
Context {F : Type} {A : Arith F} {P : Pow F}.

(** One band of the input: its samples in array order (row by row) and
    its nodata value, if it has one. *)
Record Band : Type := {
  samples : list F;
  NoDataValue : option F
}.

Record Dataset : Type := {
  RasterXSize : Z;
  RasterYSize : Z;
  GeoTransform : list F;
  Projection : string;
  bands : list Band
}.

Definition RasterCount (ds : Dataset) : Z := Z.of_nat (length (bands ds)).

Record OutBand : Type := {
  pixels : list Z;
  out_nodata : option Z
}.

Record OutDataset : Type := {
  out_path : string;
  out_cols : Z;
  out_rows : Z;
  out_geotransform : list F;
  out_projection : string;
  out_bands : list OutBand;
  out_closed : bool
}.

Definition out_band_count (o : OutDataset) : Z := Z.of_nat (length (out_bands o)).

(** The parameters as [processAlgorithm] reads them. [raster_layer] is the
    source path of the layer, or [None] when there is no layer. *)
Record Params : Type := {
  raster_layer : option string;
  method_index : Z;
  cut_percent : F;
  gamma : F;
  output_path : string
}.

(** What the run does not control: the rasters GDAL can open, whether the
    output can be created, and the answers of [feedback.isCanceled()],
    numbered by call. *)
Record Env : Type := {
  gdal_Open : string -> option Dataset;
  creatable : string -> bool;
  canceled : nat -> bool
}.

(** What the run changes. *)
Record World : Type := {
  trace : list event;
  output : option OutDataset;
  cancel_calls : nat
}.

Definition initial_world : World :=
  {| trace := []; output := None; cancel_calls := 0 |}.

Definition emit (e : event) (w : World) : World :=
  {| trace := trace w ++ [e]; output := output w; cancel_calls := cancel_calls w |}.

Definition emits (es : list event) (w : World) : World :=
  {| trace := trace w ++ es; output := output w; cancel_calls := cancel_calls w |}.

Definition set_output (o : option OutDataset) (w : World) : World :=
  {| trace := trace w; output := o; cancel_calls := cancel_calls w |}.

Definition ask_canceled (env : Env) (w : World) : bool * World :=
  let a := canceled env (cancel_calls w) in
  (a, {| trace := trace w ++ [IsCanceled a]; output := output w;
         cancel_calls := S (cancel_calls w) |}).

(** [driver.Create(path, cols, rows, band_count, GDT_Byte)]: a new
    dataset whose bands are zero and have no nodata value, with GDAL's
    default geotransform and no projection. *)
Definition default_geotransform : list F := map of_Z [0; 1; 0; 0; 0; 1].

Definition new_band (cols rows : Z) : OutBand :=
  {| pixels := repeat 0 (Z.to_nat (cols * rows)); out_nodata := None |}.

Definition gdal_Create (path : string) (cols rows band_count : Z) : OutDataset :=
  {| out_path := path; out_cols := cols; out_rows := rows;
     out_geotransform := default_geotransform; out_projection := EmptyString;
     out_bands := repeat (new_band cols rows) (Z.to_nat band_count);
     out_closed := false |}.

Definition with_geometry (o : OutDataset) (gt : list F) (proj : string) : OutDataset :=
  {| out_path := out_path o; out_cols := out_cols o; out_rows := out_rows o;
     out_geotransform := gt; out_projection := proj;
     out_bands := out_bands o; out_closed := out_closed o |}.

Fixpoint replace_nth {T : Type} (n : nat) (v : T) (l : list T) : list T :=
  match l, n with
  | [], _ => []
  | _ :: l', O => v :: l'
  | x :: l', S n' => x :: replace_nth n' v l'
  end.

(** [GetRasterBand(i).WriteArray(a)] then [SetNoDataValue(0)] on band [i]
    (numbered from 1). *)
Definition write_band (o : OutDataset) (i : Z) (a : list Z) : OutDataset :=
  {| out_path := out_path o; out_cols := out_cols o; out_rows := out_rows o;
     out_geotransform := out_geotransform o; out_projection := out_projection o;
     out_bands := replace_nth (Z.to_nat (i - 1))
                    {| pixels := a; out_nodata := Some 0 |} (out_bands o);
     out_closed := out_closed o |}.

Definition close (o : OutDataset) : OutDataset :=
  {| out_path := out_path o; out_cols := out_cols o; out_rows := out_rows o;
     out_geotransform := out_geotransform o; out_projection := out_projection o;
     out_bands := out_bands o; out_closed := true |}.

(** *** The body of the band loop, after the cancellation check *)

(** [mask = (data == nodata)], or all false without a nodata value. *)
Definition nodata_mask (b : Band) : list bool :=
  match NoDataValue b with
  | Some nd => map (fun x => feqb x nd) (samples b)
  | None => map (fun _ => false) (samples b)
  end.

Definition valid_data (b : Band) : list F :=
  take_where (map negb (nodata_mask b)) (samples b).

(** Lines 159 to 200: [output_data] for a band with valid samples. *)
Definition enhance (p : Params) (b : Band) : result (list Z) :=
  let mask := nodata_mask b in
  let valid := valid_data b in
  let zeros := map (fun _ => 0) (samples b) in
  (filled <-
     (if method_index p =? 0 then
        (v <- linear_stretch valid (cut_percent p) ;;
         Ok (put_where (map negb mask) zeros v))
      else if method_index p =? 1 then
        (v <- equalization valid ;;
         Ok (put_where (map negb mask) zeros v))
      else if method_index p =? 2 then
        (v <- gamma_correction valid (gamma p) ;;
         Ok (put_where (map negb mask) zeros v))
      else Ok zeros) ;;
   Ok (fill_where mask filled 0))%result.

Inductive control : Type := Next | Break.

(** One iteration of [for i in range(1, band_count + 1)]. The world is
    returned also when the iteration raises. *)
Definition band_iteration (env : Env) (p : Params) (band_count : Z)
           (i : Z) (b : Band) (w : World) : result control * World :=
  let '(c, w) := ask_canceled env w in
  if c then (Ok Break, w)
  else
    let w := emits [PushInfo (MsgBand i band_count); ReadBand i] w in
    match valid_data b with
    | [] => (Ok Next, emit (PushWarning (MsgEmptyBand i)) w)
    | _ :: _ =>
        match enhance p b with
        | Raise e => (Raise e, w)
        | Ok output_data =>
            let w := set_output (option_map (fun o => write_band o i output_data)
                                            (output w)) w in
            (Ok Next, emits [WriteBand i; SetNoDataValue i 0; FlushCache i] w)
        end
    end.

Fixpoint band_loop (env : Env) (p : Params) (band_count : Z)
         (i : Z) (bs : list Band) (w : World) : result unit * World :=
  match bs with
  | [] => (Ok tt, w)
  | b :: bs' =>
      match band_iteration env p band_count i b w with
      | (Raise e, w') => (Raise e, w')
      | (Ok Break, w') => (Ok tt, w')
      | (Ok Next, w') => band_loop env p band_count (i + 1) bs' w'
      end
  end.

(** *** The run *)

(** The [try] block of [processAlgorithm]. *)
Definition try_block (env : Env) (p : Params) (raster_path : string) (w : World)
  : result unit * World :=
  let w := emit (GdalOpen raster_path) w in
  match gdal_Open env raster_path with
  | None => (Raise AttributeError, w)
  | Some ds =>
      let band_count := RasterCount ds in
      if band_count =? 0
      then (Raise (QgsProcessingException "Raster has no bands"), w)
      else
        match py_getitem methods (method_index p) with
        | Raise e => (Raise e, w)
        | Ok name =>
            let w := emit (PushInfo (MsgProcessing band_count name)) w in
            let cols := RasterXSize ds in
            let rows := RasterYSize ds in
            let w := emit (GdalCreate (output_path p) cols rows band_count) w in
            if negb (creatable env (output_path p))
            then (Raise AttributeError, w)
            else
              let out := gdal_Create (output_path p) cols rows band_count in
              let out := with_geometry out (GeoTransform ds) (Projection ds) in
              let w := set_output (Some out) (emits [SetGeoTransform; SetProjection] w) in
              match band_loop env p band_count 1 (bands ds) w with
              | (Raise e, w') => (Raise e, w')
              | (Ok _, w') =>
                  let w' := set_output (option_map close (output w')) w' in
                  (Ok tt, emits [CloseOutput; CloseInput; PushInfo MsgComplete] w')
              end
        end
  end.

(** Leaving the function on the [except] path: [out_ds = None] and
    [ds = None] were not reached, so [ds] and, once created, [out_ds] are
    still bound; the locals are released when the function returns, which
    closes the datasets they hold (the source fixes no order between the
    two).  Nothing is held when [gdal.Open] gave [None]. *)
Definition release_locals (env : Env) (raster_path : string) (w : World) : World :=
  match gdal_Open env raster_path with
  | None => w
  | Some _ => emit ReleaseDatasets (set_output (option_map close (output w)) w)
  end.

(** [processAlgorithm]: the returned dictionary is [Some output_path] for
    [{OUTPUT_RASTER: output_path}] and [None] for [{}]. *)
Definition processAlgorithm (env : Env) (p : Params)
  : result (option string) * World :=
  match raster_layer p with
  | None => (Raise (QgsProcessingException "Invalid layer"), initial_world)
  | Some raster_path =>
      match try_block env p raster_path initial_world with
      | (Raise e, w) =>
          (Ok None,
           release_locals env raster_path
             (emits [ReportError (MsgError e); PushInfo (MsgTraceback e)] w))
      | (Ok _, w) => (Ok (Some (output_path p)), w)
      end
  end.

End Run.

Arguments Band F : clear implicits.
Arguments Dataset F : clear implicits.
Arguments OutDataset F : clear implicits.
Arguments Params F : clear implicits.
Arguments Env F : clear implicits.
Arguments World F : clear implicits.

(** ** The shape of a run

    Definitions used to state what a run leaves behind. *)

Section RunShape.
Context {F : Type} {A : Arith F} {P : Pow F}.

Definition set_bands (o : OutDataset F) (bs : list OutBand) : OutDataset F :=
  {| out_path := out_path o; out_cols := out_cols o; out_rows := out_rows o;
     out_geotransform := out_geotransform o; out_projection := out_projection o;
     out_bands := bs; out_closed := out_closed o |}.

(** The output band after the iteration for [b], when it started as [ob]. *)
Definition written (p : Params F) (b : Band F) (ob : OutBand) : OutBand :=
  match valid_data b with
  | [] => ob
  | _ :: _ =>
      match enhance p b with
      | Ok a => {| pixels := a; out_nodata := Some 0 |}
      | Raise _ => ob
      end
  end.

Fixpoint written_bands (p : Params F) (bs : list (Band F)) (obs : list OutBand)
  : list OutBand :=
  match bs, obs with
  | b :: bs', ob :: obs' => written p b ob :: written_bands p bs' obs'
  | _, _ => obs
  end.

(** The events of an iteration that is neither canceled nor raises. *)
Definition band_events (band_count i : Z) (b : Band F) : list event :=
  [IsCanceled false; PushInfo (MsgBand i band_count); ReadBand i] ++
  match valid_data b with
  | [] => [PushWarning (MsgEmptyBand i)]
  | _ :: _ => [WriteBand i; SetNoDataValue i 0; FlushCache i]
  end.

Fixpoint loop_events (band_count i : Z) (bs : list (Band F)) : list event :=
  match bs with
  | [] => []
  | b :: bs' => band_events band_count i b ++ loop_events band_count (i + 1) bs'
  end.

(** The enhancement of [b] raises nothing (bands without a valid sample
    are not enhanced at all). *)
Definition enhances (p : Params F) (b : Band F) : Prop :=
  valid_data b <> [] -> exists a, enhance p b = Ok a.

(** An output band is either untouched or holds the enhancement of its
    input band. *)
Definition band_rel (p : Params F) (b : Band F) (ob ob' : OutBand) : Prop :=
  ob' = ob \/ exists a, enhance p b = Ok a /\ ob' = {| pixels := a; out_nodata := Some 0 |}.

Inductive bands_rel (p : Params F) : list (Band F) -> list OutBand -> list OutBand -> Prop :=
| rel_stop bs rest : bands_rel p bs rest rest
| rel_cons b bs ob ob' rest rest' :
    band_rel p b ob ob' -> bands_rel p bs rest rest' ->
    bands_rel p (b :: bs) (ob :: rest) (ob' :: rest').

(** The dataset the run creates before the loop. *)
Definition created (p : Params F) (ds : Dataset F) : OutDataset F :=
  with_geometry (gdal_Create (output_path p) (RasterXSize ds) (RasterYSize ds)
                             (RasterCount ds))
                (GeoTransform ds) (Projection ds).

Definition run_header (p : Params F) (path : string) (ds : Dataset F) (name : string)
  : list event :=
  [ GdalOpen path; PushInfo (MsgProcessing (RasterCount ds) name);
    GdalCreate (output_path p) (RasterXSize ds) (RasterYSize ds) (RasterCount ds);
    SetGeoTransform; SetProjection ].

Definition run_footer : list event := [CloseOutput; CloseInput; PushInfo MsgComplete].

(** The events of the check that stops the loop, if bands are left. *)
Definition stop_events (left : list (Band F)) : list event :=
  match left with [] => [] | _ :: _ => [IsCanceled true] end.

Definition fresh_bands (ds : Dataset F) : list OutBand :=
  repeat (new_band (RasterXSize ds) (RasterYSize ds)) (length (bands ds)).

Definition is_check (e : event) : bool :=
  match e with IsCanceled _ => true | _ => false end.

Definition with_gamma (p : Params F) (g : F) : Params F :=
  {| raster_layer := raster_layer p; method_index := method_index p;
     cut_percent := cut_percent p; gamma := g; output_path := output_path p |}.

Definition with_cut_percent (p : Params F) (c : F) : Params F :=
  {| raster_layer := raster_layer p; method_index := method_index p;
     cut_percent := c; gamma := gamma p; output_path := output_path p |}.

End RunShape.

(** ** Exact arithmetic: orders on tables *)

Section ExactShape.
#[local] Existing Instance exactQ.
#[local] Open Scope Q_scope.

Definition nondecr (fp : list Q) : Prop :=
  forall i j, (i <= j < length fp)%nat -> nth i fp fzero <= nth j fp fzero.

Definition nondecrZ (l : list Z) : Prop :=
  forall i j a b, nth_error l i = Some a -> nth_error l j = Some b ->
                  (i <= j)%nat -> (a <= b)%Z.

Definition scaled (cmin cmax c : Z) : Q :=
  fdiv (of_Z ((c - cmin) * 255)) (of_Z (cmax - cmin)).

End ExactShape.

(** ** The declared parameters

    The two number parameters of [initAlgorithm] (lines 97 to 104), both of
    type Double and optional. *)

Record NumberParameter : Type := {
  minValue : float;
  maxValue : float;
  defaultValue : float
}.

Definition CUT_PERCENT_parameter : NumberParameter :=
  {| minValue := 0; maxValue := 50; defaultValue := 2 |}.

Definition GAMMA_parameter : NumberParameter :=
  {| minValue := 0.1; maxValue := 10; defaultValue := 1 |}.

(** The host accepts a number for such a parameter when it lies within the
    declared bounds. *)
Definition acceptable (d : NumberParameter) (v : float) : bool :=
  PrimFloat.leb (minValue d) v && PrimFloat.leb v (maxValue d).

(** ** Reading a trace *)

(** The band numbers of the [ReadBand] events of a trace, in order. *)
Definition read_indices (t : list event) : list Z :=
  flat_map (fun e => match e with ReadBand i => [i] | _ => [] end) t.

(** ** Example data on binary64 *)

(** A machine for the evaluations below: an undefined cast gives 0. The C
    library's [pow] outside the cases [B64.pow] fixes is not modelled; no
    evaluation below reaches it. *)
Definition ex_cast : float -> Z := fun _ => 0.
Definition ex_pow : float -> float -> float := fun _ _ => PrimFloat.nan.
Definition ex_arith : Arith float := binary64 ex_cast.
Definition ex_libm : Pow float := binary64_pow ex_pow.
#[local] Existing Instance ex_arith.
#[local] Existing Instance ex_libm.

(** A 2x2 raster with three bands: a band with one nodata pixel, a band
    that is nodata everywhere, and a constant band without nodata value. *)
Definition ex_band1 : Band float :=
  {| samples := [0; 1; 50; 100]%float; NoDataValue := Some 50%float |}.
Definition ex_band2 : Band float :=
  {| samples := [9; 9; 9; 9]%float; NoDataValue := Some 9%float |}.
Definition ex_band3 : Band float :=
  {| samples := [5; 7; 10; 7]%float; NoDataValue := None |}.
Definition ex_raster : Dataset float :=
  {| RasterXSize := 2; RasterYSize := 2;
     GeoTransform := [10; 1; 0; 20; 0; -1]%float;
     Projection := "EPSG:4326"%string;
     bands := [ex_band1; ex_band2; ex_band3] |}.

Definition ex_env (answers : nat -> bool) : Env float :=
  {| gdal_Open := fun path => if String.eqb path "in.tif" then Some ex_raster else None;
     creatable := fun _ => true;
     canceled := answers |}.

Definition never : nat -> bool := fun _ => false.
Definition at_second_check : nat -> bool := fun k => Nat.eqb k 1.

Definition ex_params (method : Z) (cut gamma : float) : Params float :=
  {| raster_layer := Some "in.tif"%string; method_index := method;
     cut_percent := cut; gamma := gamma; output_path := "out.tif"%string |}.

Definition ex_run (answers : nat -> bool) (method : Z) (cut gamma : float) :=
  @processAlgorithm float ex_arith ex_libm (ex_env answers) (ex_params method cut gamma).

Ltac ex_enhances :=
  repeat constructor; intros _; eexists; vm_compute; reflexivity.

(** A band with the samples 0, 1 and 100 and no nodata value. *)
Definition ex_band_0_100 : Band float :=
  {| samples := [0; 1; 100]%float; NoDataValue := None |}.

(** A raster whose second band holds an infinite sample. *)
Definition ex_band_inf : Band float :=
  {| samples := [1; 2; PrimFloat.infinity; 3]%float; NoDataValue := None |}.
Definition ex_raster_inf : Dataset float :=
  {| RasterXSize := 2; RasterYSize := 2;
     GeoTransform := [10; 1; 0; 20; 0; -1]%float;
     Projection := "EPSG:4326"%string;
     bands := [ex_band1; ex_band_inf; ex_band3] |}.
Definition ex_env_inf : Env float :=
  {| gdal_Open := fun path => if String.eqb path "in.tif" then Some ex_raster_inf else None;
     creatable := fun _ => true;
     canceled := never |}.

(** A band whose percentiles 0 and 100 are finite while their difference
    overflows. *)
Definition ex_band_wide : Band float :=
  {| samples := [-0x1.8p1023; 0; 0x1.8p1023]%float; NoDataValue := None |}.

(** Increasing samples within a range of 2^-1052 (subnormal numbers) and
    within a range of 2^-1022 (the last sample is the smallest normal
    number). *)
Definition ex_tiny_samples : list float :=
  [0; 0x1.8p-1060; 0x1.cp-1060; 0x1.4p-1059; 0x1p-1052]%float.
Definition ex_small_samples : list float :=
  [0; 0x1.8p-1030; 0x1.cp-1030; 0x1.4p-1029; 0x1p-1022]%float.

(** ** What a run leaves behind, band by band *)

Section RunFacts.
Context {F : Type} {A : Arith F} {P : Pow F}.

Lemma replace_nth_app {T : Type} (pre : list T) (v x : T) (rest : list T) :
  replace_nth (length pre) v (pre ++ x :: rest) = pre ++ v :: rest.
Proof. induction pre as [|y pre IH]; simpl; [reflexivity | now rewrite IH]. Qed.

Lemma replace_nth_end {T : Type} (pre : list T) (v : T) :
  replace_nth (length pre) v pre = pre.
Proof. induction pre as [|y pre IH]; simpl; [reflexivity | now rewrite IH]. Qed.

Lemma replace_nth_length {T : Type} (n : nat) (v : T) (l : list T) :
  length (replace_nth n v l) = length l.
Proof.
  revert n; induction l as [|x l IH]; intros [|n]; simpl; auto.
Qed.

Lemma written_bands_length p bs obs :
  length (written_bands p bs obs) = length obs.
Proof.
  revert obs; induction bs as [|b bs IH]; intros [|ob obs]; simpl; auto.
Qed.

(** A prefix of bands during which no cancellation is answered and no
    enhancement raises: the loop goes through it, writing each band that
    has a valid sample and leaving the others as they were. *)
Lemma band_loop_prefix (env : Env F) (p : Params F) (band_count : Z)
      (bs1 bs2 : list (Band F)) :
  forall (i : Z) (tr : list event) (o : OutDataset F) (c : nat)
         (pre rest : list OutBand),
    Z.of_nat (length pre) = i - 1 ->
    out_bands o = pre ++ rest ->
    (length bs1 <= length rest)%nat ->
    (forall k, (k < length bs1)%nat -> canceled env (c + k) = false) ->
    Forall (enhances p) bs1 ->
    band_loop env p band_count i (bs1 ++ bs2)
              {| trace := tr; output := Some o; cancel_calls := c |} =
    band_loop env p band_count (i + Z.of_nat (length bs1)) bs2
              {| trace := tr ++ loop_events band_count i bs1;
                 output := Some (set_bands o (pre ++ written_bands p bs1 rest));
                 cancel_calls := c + length bs1 |}.
Proof.
  induction bs1 as [|b bs1 IH]; intros i tr o c pre rest Hi Ho Hl Hc He.
  - simpl. rewrite app_nil_r, Z.add_0_r, Nat.add_0_r.
    destruct o; simpl in *; subst; reflexivity.
  - inversion He as [|? ? Hb He']; subst.
    destruct rest as [|ob rest]; [simpl in Hl; lia|].
    assert (H0 : canceled env c = false).
    { specialize (Hc O). rewrite Nat.add_0_r in Hc. apply Hc. simpl; lia. }
    assert (Hc' : forall k, (k < length bs1)%nat -> canceled env (S c + k) = false).
    { intros k Hk. specialize (Hc (S k)).
      replace (S c + k)%nat with (c + S k)%nat by lia. apply Hc. simpl; lia. }
    cbn [app band_loop]. unfold band_iteration, ask_canceled.
    cbn [cancel_calls trace output]. rewrite H0.
    unfold written_bands; fold written_bands.
    unfold loop_events; fold loop_events. unfold band_events, written, enhances in *.
    destruct (valid_data b) as [|x v] eqn:Hv.
    + (* no valid sample: a warning, nothing written *)
      unfold emit, emits; cbn [trace output cancel_calls].
      rewrite (IH (i + 1) _ o (S c) (pre ++ [ob]) rest); auto.
      * f_equal; [cbn [length]; lia|]. f_equal.
        -- rewrite <- !app_assoc. reflexivity.
        -- rewrite <- app_assoc. reflexivity.
        -- cbn [length]; lia.
      * rewrite length_app; cbn [length]; lia.
      * rewrite Ho, <- app_assoc. reflexivity.
      * cbn [length] in Hl; lia.
    + (* valid samples: enhanced and written *)
      destruct Hb as [a Ha]; [discriminate|]. rewrite Ha.
      unfold emit, emits, set_output; cbn [trace output cancel_calls option_map].
      assert (Hw : out_bands (write_band o i a) =
                   pre ++ {| pixels := a; out_nodata := Some 0 |} :: rest).
      { unfold write_band; cbn [out_bands]. rewrite Ho.
        replace (Z.to_nat (i - 1)) with (length pre) by lia.
        apply replace_nth_app. }
      rewrite (IH (i + 1) _ (write_band o i a) (S c)
                  (pre ++ [{| pixels := a; out_nodata := Some 0 |}]) rest); auto.
      * f_equal; [cbn [length]; lia|]. f_equal.
        -- rewrite <- !app_assoc. reflexivity.
        -- rewrite <- app_assoc. reflexivity.
        -- cbn [length]; lia.
      * rewrite length_app; cbn [length]; lia.
      * rewrite Hw, <- app_assoc. reflexivity.
      * cbn [length] in Hl; lia.
Qed.

(** *** What holds of every run, however it ends *)

Lemma bands_rel_length p bs rest rest' :
  bands_rel p bs rest rest' -> length rest' = length rest.
Proof. induction 1; simpl; auto. Qed.

Lemma bands_rel_nth p bs rest rest' :
  bands_rel p bs rest rest' ->
  forall j b ob',
    nth_error bs j = Some b -> nth_error rest' j = Some ob' ->
    exists ob, nth_error rest j = Some ob /\ band_rel p b ob ob'.
Proof.
  induction 1 as [bs rest | b bs ob ob' rest rest' Hb Hr IH]; intros j b0 ob0 Hj Ho.
  - exists ob0; split; [assumption | left; reflexivity].
  - destruct j as [|j]; simpl in *.
    + inversion Hj; inversion Ho; subst. exists ob; split; auto.
    + eapply IH; eauto.
Qed.

Lemma band_loop_inv (env : Env F) (p : Params F) (band_count : Z) (bs : list (Band F)) :
  forall (i : Z) (w w' : World F) (r : result unit) (o : OutDataset F)
         (pre rest : list OutBand),
    band_loop env p band_count i bs w = (r, w') ->
    output w = Some o ->
    out_bands o = pre ++ rest ->
    Z.of_nat (length pre) = i - 1 ->
    (length bs <= length rest)%nat ->
    exists rest', output w' = Some (set_bands o (pre ++ rest'))
                  /\ bands_rel p bs rest rest'.
Proof.
  induction bs as [|b bs IH]; intros i w w' r o pre rest Hrun Ho Hb Hi Hl.
  - simpl in Hrun. inversion Hrun; subst. exists rest. split; [|constructor].
    rewrite Ho. destruct o; simpl in *; subst; reflexivity.
  - destruct rest as [|ob rest]; [simpl in Hl; lia|].
    assert (Hsame : output w = Some (set_bands o (pre ++ ob :: rest))).
    { rewrite Ho. destruct o; simpl in *; subst; reflexivity. }
    cbn [band_loop] in Hrun. unfold band_iteration, ask_canceled in Hrun.
    destruct (canceled env (cancel_calls w)).
    + inversion Hrun; subst. exists (ob :: rest). split; [exact Hsame | constructor].
    + destruct (valid_data b) as [|x v].
      * unfold emit, emits in Hrun; cbn [trace output cancel_calls] in Hrun.
        eapply (IH (i + 1) _ w' r o (pre ++ [ob]) rest) in Hrun;
          [ | cbn [output]; exact Ho | rewrite Hb, <- app_assoc; reflexivity
            | rewrite length_app; cbn [length]; lia | cbn [length] in Hl; lia ].
        destruct Hrun as [rest' [Hout Hrel]]. exists (ob :: rest'). split.
        -- rewrite Hout, <- app_assoc. reflexivity.
        -- constructor; [left; reflexivity | assumption].
      * destruct (enhance p b) as [a|e] eqn:Ha.
        -- unfold emit, emits, set_output in Hrun;
             cbn [trace output cancel_calls option_map] in Hrun.
           rewrite Ho in Hrun; cbn [option_map] in Hrun.
           assert (Hw : out_bands (write_band o i a) =
                        (pre ++ [{| pixels := a; out_nodata := Some 0 |}]) ++ rest).
           { unfold write_band; cbn [out_bands]. rewrite Hb.
             replace (Z.to_nat (i - 1)) with (length pre) by lia.
             rewrite replace_nth_app, <- app_assoc. reflexivity. }
           eapply (IH (i + 1) _ w' r (write_band o i a) _ rest) in Hrun;
             [ | cbn [output]; reflexivity | exact Hw
               | rewrite length_app; cbn [length]; lia | cbn [length] in Hl; lia ].
           destruct Hrun as [rest' [Hout Hrel]].
           exists ({| pixels := a; out_nodata := Some 0 |} :: rest'). split.
           ++ rewrite Hout, <- app_assoc. reflexivity.
           ++ constructor; [right; exists a; split; auto | assumption].
        -- inversion Hrun; subst. unfold emits; cbn [output].
           exists (ob :: rest). split; [exact Hsame | constructor].
Qed.

Lemma created_bands p ds :
  out_bands (created p ds) = repeat (new_band (RasterXSize ds) (RasterYSize ds))
                                    (length (bands ds)).
Proof. unfold created, RasterCount; cbn. now rewrite Nat2Z.id. Qed.

(** Whatever the outcome, an output dataset left by a run is the created
    one with some of its bands replaced by enhanced input bands. *)
Lemma run_output (env : Env F) (p : Params F) r w o :
  processAlgorithm env p = (r, w) ->
  output w = Some o ->
  exists path ds obs closed,
    raster_layer p = Some path /\ gdal_Open env path = Some ds /\
    bands_rel p (bands ds)
              (repeat (new_band (RasterXSize ds) (RasterYSize ds)) (length (bands ds)))
              obs /\
    o = {| out_path := output_path p; out_cols := RasterXSize ds;
           out_rows := RasterYSize ds; out_geotransform := GeoTransform ds;
           out_projection := Projection ds; out_bands := obs;
           out_closed := closed |}.
Proof.
  unfold processAlgorithm, try_block, release_locals. intros Hrun Hout.
  destruct (raster_layer p) as [path|]; [|inversion Hrun; subst; discriminate].
  destruct (gdal_Open env path) as [ds|] eqn:Hds.
  2:{ inversion Hrun; subst; discriminate. }
  destruct (RasterCount ds =? 0); [inversion Hrun; subst; discriminate|].
  destruct (py_getitem methods (method_index p)) as [name|e];
    [|inversion Hrun; subst; discriminate].
  destruct (creatable env (output_path p)); cbn [negb] in Hrun;
    [|inversion Hrun; subst; discriminate].
  fold (created p ds) in Hrun.
  destruct (band_loop _ _ _ _ _ _) as [r' w'] eqn:Hloop.
  eapply (band_loop_inv _ _ _ _ 1 _ w' r' (created p ds) []
            (repeat (new_band (RasterXSize ds) (RasterYSize ds)) (length (bands ds))))
    in Hloop;
    [ | reflexivity | apply created_bands | reflexivity | rewrite repeat_length; lia ].
  destruct Hloop as [obs [Ho Hrel]]. cbn [app] in Ho.
  exists path, ds, obs.
  destruct r' as [[]|e]; inversion Hrun; subst; clear Hrun;
    unfold emit, emits, set_output in Hout; cbn [output] in Hout;
    rewrite Ho in Hout; cbn in Hout; inversion Hout; subst;
    exists true; repeat split; auto.
Qed.

(** A run that returns the output path has created and closed the
    output dataset. *)
Lemma run_success_output (env : Env F) (p : Params F) s w :
  processAlgorithm env p = (Ok (Some s), w) ->
  exists o, output w = Some o /\ out_closed o = true.
Proof.
  unfold processAlgorithm, try_block, release_locals. intros Hrun.
  destruct (raster_layer p) as [path|]; [|discriminate].
  destruct (gdal_Open env path) as [ds|]; [|discriminate].
  destruct (RasterCount ds =? 0); [discriminate|].
  destruct (py_getitem methods (method_index p)) as [name|e]; [|discriminate].
  destruct (creatable env (output_path p)); cbn [negb] in Hrun; [|discriminate].
  fold (created p ds) in Hrun.
  destruct (band_loop _ _ _ _ _ _) as [r' w'] eqn:Hloop.
  eapply (band_loop_inv _ _ _ _ 1 _ w' r' (created p ds) []
            (repeat (new_band (RasterXSize ds) (RasterYSize ds)) (length (bands ds))))
    in Hloop;
    [ | reflexivity | apply created_bands | reflexivity | rewrite repeat_length; lia ].
  destruct Hloop as [obs [Ho Hrel]].
  destruct r' as [[]|e]; inversion Hrun; subst; clear Hrun.
  unfold emits, set_output; cbn [output]. rewrite Ho. cbn.
  eexists; split; reflexivity.
Qed.

(** *** Boolean-mask assignments *)

Lemma put_where_length {T : Type} (sel : list bool) (a vals : list T) :
  length (put_where sel a vals) = length a.
Proof.
  revert a vals; induction sel as [|s sel IH]; intros [|x a] vals; simpl; auto.
  destruct s; [destruct vals|]; simpl; auto.
Qed.

Lemma fill_where_length {T : Type} (sel : list bool) (a : list T) (c : T) :
  length (fill_where sel a c) = length a.
Proof.
  revert a; induction sel as [|s sel IH]; intros [|x a]; simpl; auto.
Qed.

Lemma fill_where_selected {T : Type} (sel : list bool) (a : list T) (c : T) (k : nat) :
  nth_error sel k = Some true -> (k < length a)%nat ->
  nth_error (fill_where sel a c) k = Some c.
Proof.
  revert a k; induction sel as [|s sel IH]; intros [|x a] [|k] Hs Hk;
    simpl in *; try discriminate; try lia.
  - inversion Hs; subst; reflexivity.
  - apply IH; [assumption | lia].
Qed.

Lemma fill_where_other {T : Type} (sel : list bool) (a : list T) (c : T) (k : nat) :
  nth_error sel k = Some false ->
  nth_error (fill_where sel a c) k = nth_error a k.
Proof.
  revert a k; induction sel as [|s sel IH]; intros [|x a] [|k] Hs;
    simpl in *; try discriminate; auto.
  inversion Hs; subst; reflexivity.
Qed.

(** Gathering the selected samples, mapping them and scattering the
    results back puts [f x] where [x] was. *)
Lemma put_where_map_take {T U : Type} (f : T -> U) (sel : list bool) :
  forall (data : list T) (a : list U) (k : nat) (x : T),
    length a = length data ->
    nth_error sel k = Some true -> nth_error data k = Some x ->
    nth_error (put_where sel a (map f (take_where sel data))) k = Some (f x).
Proof.
  induction sel as [|s sel IH]; intros data a k x Hl Hs Hx.
  - destruct k; discriminate.
  - destruct data as [|d data]; [destruct k; discriminate|].
    destruct a as [|y a]; [discriminate|].
    simpl in Hl. destruct k as [|k]; simpl in *.
    + inversion Hs; inversion Hx; subst. reflexivity.
    + destruct s; simpl; apply IH; auto.
Qed.

Lemma nodata_mask_length (b : Band F) : length (nodata_mask b) = length (samples b).
Proof. unfold nodata_mask; destruct (NoDataValue b); apply length_map. Qed.

Lemma nodata_mask_nth (b : Band F) (k : nat) (x : F) :
  nth_error (samples b) k = Some x ->
  nth_error (nodata_mask b) k =
    Some (match NoDataValue b with Some nd => feqb x nd | None => false end).
Proof.
  intros Hx. unfold nodata_mask.
  destruct (NoDataValue b); rewrite nth_error_map, Hx; reflexivity.
Qed.

(** The array an enhancement returns has the input's size and is 0
    wherever the mask holds. *)
Lemma enhance_length (p : Params F) (b : Band F) (a : list Z) :
  enhance p b = Ok a -> length a = length (samples b).
Proof.
  unfold enhance. intros H.
  assert (Hz : length (map (fun _ : F => 0) (samples b)) = length (samples b))
    by apply length_map.
  destruct (method_index p =? 0);
    [|destruct (method_index p =? 1); [|destruct (method_index p =? 2)]];
    cbn [bind] in H.
  1: destruct (linear_stretch _ _); cbn [bind] in H; [|discriminate].
  2: destruct (equalization _); cbn [bind] in H; [|discriminate].
  3: destruct (gamma_correction _ _); cbn [bind] in H; [|discriminate].
  all: inversion H; subst; rewrite fill_where_length, ?put_where_length; exact Hz.
Qed.

Lemma enhance_masked (p : Params F) (b : Band F) (a : list Z) (k : nat) :
  enhance p b = Ok a ->
  nth_error (nodata_mask b) k = Some true ->
  nth_error a k = Some 0.
Proof.
  intros H Hm.
  assert (Hk : (k < length (samples b))%nat).
  { rewrite <- nodata_mask_length. apply nth_error_Some. congruence. }
  unfold enhance in H.
  assert (Hz : length (map (fun _ : F => 0) (samples b)) = length (samples b))
    by apply length_map.
  destruct (method_index p =? 0);
    [|destruct (method_index p =? 1); [|destruct (method_index p =? 2)]];
    cbn [bind] in H.
  1: destruct (linear_stretch _ _); cbn [bind] in H; [|discriminate].
  2: destruct (equalization _); cbn [bind] in H; [|discriminate].
  3: destruct (gamma_correction _ _); cbn [bind] in H; [|discriminate].
  all: inversion H; subst; apply fill_where_selected; auto;
    rewrite ?put_where_length, Hz; exact Hk.
Qed.

(** *** Runs that reach the end of the loop *)

(** The bands [bs1] go through without cancellation and without an
    exception, and then either no band is left or the cancellation check
    answers true: the run closes both datasets and returns the output
    path. *)
Lemma run_until (env : Env F) (p : Params F) path ds name (bs1 bs2 : list (Band F)) :
  raster_layer p = Some path ->
  gdal_Open env path = Some ds ->
  bands ds = bs1 ++ bs2 ->
  bands ds <> [] ->
  py_getitem methods (method_index p) = Ok name ->
  creatable env (output_path p) = true ->
  (forall k, (k < length bs1)%nat -> canceled env k = false) ->
  Forall (enhances p) bs1 ->
  (bs2 = [] \/ canceled env (length bs1) = true) ->
  processAlgorithm env p =
  (Ok (Some (output_path p)),
   {| trace := run_header p path ds name ++ loop_events (RasterCount ds) 1 bs1
               ++ stop_events bs2 ++ run_footer;
      output := Some (close (set_bands (created p ds)
                                       (written_bands p bs1 (fresh_bands ds))));
      cancel_calls := length bs1 + length (stop_events bs2) |}).
Proof.
  intros Hp Hd Hb Hne Hm Hc Hk He Hstop.
  unfold processAlgorithm, try_block, release_locals. rewrite Hp, Hd.
  assert (Hn : (RasterCount ds =? 0) = false).
  { apply Z.eqb_neq. unfold RasterCount. destruct (bands ds); [congruence|].
    cbn [length]; lia. }
  rewrite Hn, Hm, Hc. cbn [negb]. fold (created p ds).
  unfold emit, emits, set_output, initial_world; cbn [trace output cancel_calls app].
  rewrite Hb.
  rewrite (band_loop_prefix env p (RasterCount ds) bs1 bs2 1 _ (created p ds) 0 []
             (fresh_bands ds)); auto.
  2: apply created_bands.
  2:{ unfold fresh_bands. rewrite repeat_length, Hb, length_app. lia. }
  destruct bs2 as [|b bs2].
  - cbn [band_loop trace output cancel_calls option_map stop_events length app].
    rewrite Nat.add_0_r. reflexivity.
  - destruct Hstop as [Hnil | Htrue]; [discriminate|].
    cbn [band_loop]. unfold band_iteration, ask_canceled.
    cbn [trace output cancel_calls]. rewrite Nat.add_0_l, Htrue.
    cbn [trace output cancel_calls option_map stop_events length app].
    unfold run_header; cbn [app]. rewrite <- !app_assoc.
    replace (S (length bs1)) with (length bs1 + 1)%nat by lia. reflexivity.
Qed.

(** *** The events and the bands of the loop *)

Lemma band_events_checks n i (b : Band F) :
  length (filter is_check (band_events n i b)) = 1%nat.
Proof. unfold band_events. destruct (valid_data b); reflexivity. Qed.

Lemma loop_events_checks n (bs : list (Band F)) :
  forall i, length (filter is_check (loop_events n i bs)) = length bs.
Proof.
  induction bs as [|b bs IH]; intros i; cbn [loop_events length]; [reflexivity|].
  rewrite filter_app, length_app, band_events_checks, IH. reflexivity.
Qed.

Lemma loop_events_read n (bs : list (Band F)) :
  forall i j, In (ReadBand j) (loop_events n i bs) ->
              i <= j < i + Z.of_nat (length bs).
Proof.
  induction bs as [|b bs IH]; intros i j Hin; cbn [loop_events] in Hin; [contradiction|].
  apply in_app_or in Hin. destruct Hin as [Hin | Hin].
  - unfold band_events in Hin. cbn [length].
    destruct (valid_data b); cbn in Hin;
      repeat (destruct Hin as [Hin | Hin]; [try discriminate; inversion Hin; lia|]);
      contradiction.
  - apply IH in Hin. cbn [length]. lia.
Qed.

Lemma loop_events_write n (bs : list (Band F)) :
  forall i j, In (WriteBand j) (loop_events n i bs) ->
              i <= j < i + Z.of_nat (length bs).
Proof.
  induction bs as [|b bs IH]; intros i j Hin; cbn [loop_events] in Hin; [contradiction|].
  apply in_app_or in Hin. destruct Hin as [Hin | Hin].
  - unfold band_events in Hin. cbn [length].
    destruct (valid_data b); cbn in Hin;
      repeat (destruct Hin as [Hin | Hin]; [try discriminate; inversion Hin; lia|]);
      contradiction.
  - apply IH in Hin. cbn [length]. lia.
Qed.

Lemma loop_events_write_valid n (bs : list (Band F)) :
  forall i j b, nth_error bs j = Some b ->
                In (WriteBand (i + Z.of_nat j)) (loop_events n i bs) ->
                valid_data b <> [].
Proof.
  induction bs as [|b0 bs IH]; intros i j b Hj Hin; [destruct j; discriminate|].
  cbn [loop_events] in Hin. apply in_app_or in Hin.
  destruct j as [|j]; cbn in Hj.
  - inversion Hj; subst. destruct Hin as [Hin | Hin].
    + unfold band_events in Hin. destruct (valid_data b); [|discriminate].
      cbn in Hin.
      repeat (destruct Hin as [Hin | Hin]; [discriminate|]). contradiction.
    + apply loop_events_write in Hin. lia.
  - destruct Hin as [Hin | Hin].
    + unfold band_events in Hin.
      destruct (valid_data b0); cbn in Hin;
        repeat (destruct Hin as [Hin | Hin]; [try discriminate; inversion Hin; lia|]);
        contradiction.
    + replace (i + Z.of_nat (S j)) with ((i + 1) + Z.of_nat j) in Hin by lia.
      eapply IH; eauto.
Qed.

Lemma loop_events_warning n (bs : list (Band F)) :
  forall i j b, nth_error bs j = Some b -> valid_data b = [] ->
                In (PushWarning (MsgEmptyBand (i + Z.of_nat j))) (loop_events n i bs).
Proof.
  induction bs as [|b0 bs IH]; intros i j b Hj Hv; [destruct j; discriminate|].
  cbn [loop_events]. apply in_or_app. destruct j as [|j]; cbn in Hj.
  - inversion Hj; subst. left. unfold band_events. rewrite Hv.
    rewrite Z.add_0_r. cbn. auto.
  - right. replace (i + Z.of_nat (S j)) with ((i + 1) + Z.of_nat j) by lia.
    eapply IH; eauto.
Qed.

Lemma written_bands_nth p (bs : list (Band F)) :
  forall obs j b ob,
    nth_error bs j = Some b -> nth_error obs j = Some ob ->
    nth_error (written_bands p bs obs) j = Some (written p b ob).
Proof.
  induction bs as [|b0 bs IH]; intros obs j b ob Hb Ho; [destruct j; discriminate|].
  destruct obs as [|ob0 obs]; [destruct j; discriminate|].
  destruct j as [|j]; cbn in *.
  - inversion Hb; inversion Ho; subst; reflexivity.
  - apply IH; auto.
Qed.

Lemma written_bands_firstn p (bs : list (Band F)) :
  forall obs, firstn (length bs) (written_bands p bs obs) =
              written_bands p bs (firstn (length bs) obs).
Proof.
  induction bs as [|b bs IH]; intros obs; [reflexivity|].
  destruct obs as [|ob obs]; cbn; [reflexivity|]. now rewrite IH.
Qed.

Lemma written_bands_skipn p (bs : list (Band F)) :
  forall obs, skipn (length bs) (written_bands p bs obs) = skipn (length bs) obs.
Proof.
  induction bs as [|b bs IH]; intros obs; [reflexivity|].
  destruct obs as [|ob obs]; cbn; [reflexivity|]. apply IH.
Qed.

Lemma firstn_repeat {T : Type} (x : T) (n m : nat) :
  firstn n (repeat x (n + m)) = repeat x n.
Proof. induction n; cbn; [reflexivity | now rewrite IHn]. Qed.

Lemma skipn_repeat {T : Type} (x : T) (n m : nat) :
  skipn n (repeat x (n + m)) = repeat x m.
Proof. induction n; cbn; [reflexivity | assumption]. Qed.

(** A band without valid samples: all its samples equal its nodata
    value. *)
Lemma all_nodata_no_valid (b : Band F) (nd : F) :
  NoDataValue b = Some nd ->
  Forall (fun x => feqb x nd = true) (samples b) ->
  valid_data b = [].
Proof.
  unfold valid_data, nodata_mask. intros Hnd Hall. rewrite Hnd.
  induction Hall as [|x l Hx Hl IH]; cbn; [reflexivity|].
  rewrite Hx. cbn. exact IH.
Qed.

(** *** Method indices and the gamma parameter *)

Lemma methods_negative_index (m : Z) :
  -3 <= m < 0 -> exists name, py_getitem methods m = Ok name.
Proof.
  intros H. assert (Hm : m = -3 \/ m = -2 \/ m = -1) by lia.
  destruct Hm as [-> | [-> | ->]]; eexists; reflexivity.
Qed.

Lemma methods_index_error (m : Z) :
  m < -3 \/ 2 < m -> py_getitem methods m = Raise IndexError.
Proof.
  intros H. unfold py_getitem. cbn [methods length Z.of_nat Pos.of_succ_nat Pos.succ].
  destruct (m <? 0) eqn:Hneg.
  - apply Z.ltb_lt in Hneg.
    replace (0 <=? m + 3) with false by (symmetry; apply Z.leb_gt; lia).
    reflexivity.
  - apply Z.ltb_ge in Hneg.
    replace (m <? 3) with false by (symmetry; apply Z.ltb_ge; lia).
    rewrite andb_false_r. reflexivity.
Qed.

Lemma fill_where_const {T : Type} (sel : list bool) (c : T) {U : Type} (l : list U) :
  fill_where sel (map (fun _ => c) l) c = map (fun _ => c) l.
Proof.
  revert l; induction sel as [|s sel IH]; intros [|x l]; cbn; auto.
  rewrite IH. destruct s; reflexivity.
Qed.

(** Outside 0, 1 and 2 no branch is taken: the zero array is written. *)
Lemma enhance_no_branch (p : Params F) (b : Band F) :
  method_index p < 0 \/ 2 < method_index p ->
  enhance p b = Ok (map (fun _ => 0) (samples b)).
Proof.
  intros H. unfold enhance.
  replace (method_index p =? 0) with false by (symmetry; apply Z.eqb_neq; lia).
  replace (method_index p =? 1) with false by (symmetry; apply Z.eqb_neq; lia).
  replace (method_index p =? 2) with false by (symmetry; apply Z.eqb_neq; lia).
  cbn [bind]. now rewrite fill_where_const.
Qed.

Lemma enhance_ignores_gamma (p : Params F) (g : F) (b : Band F) :
  method_index p <> 2 -> enhance (with_gamma p g) b = enhance p b.
Proof.
  intros H. unfold enhance. cbn [with_gamma method_index cut_percent gamma].
  replace (method_index p =? 2) with false by (symmetry; apply Z.eqb_neq; lia).
  reflexivity.
Qed.

Lemma band_loop_ignores_gamma (env : Env F) (p : Params F) (g : F) n bs :
  method_index p <> 2 ->
  forall i w, band_loop env (with_gamma p g) n i bs w = band_loop env p n i bs w.
Proof.
  intros H. induction bs as [|b bs IH]; intros i w; [reflexivity|].
  cbn [band_loop]. unfold band_iteration.
  rewrite (enhance_ignores_gamma p g b H).
  destruct (ask_canceled env w) as [c w1]. destruct c; [reflexivity|].
  destruct (valid_data b); [apply IH|].
  destruct (enhance p b); [apply IH | reflexivity].
Qed.

Lemma enhance_gamma_zero (p : Params F) (b : Band F) :
  method_index p = 2 -> feqb (gamma p) fzero = true ->
  enhance p b = Raise ZeroDivisionError.
Proof.
  intros Hm Hg. unfold enhance. rewrite Hm. cbn [Z.eqb Pos.eqb].
  unfold gamma_correction, py_truediv. rewrite Hg. reflexivity.
Qed.

Lemma written_bands_all_empty p (bs : list (Band F)) :
  Forall (fun b => valid_data b = []) bs ->
  forall obs, written_bands p bs obs = obs.
Proof.
  induction 1 as [|b bs Hb Hbs IH]; intros obs; [destruct obs; reflexivity|].
  destruct obs as [|ob obs]; [reflexivity|].
  cbn [written_bands]. unfold written. rewrite Hb, IH. reflexivity.
Qed.

Lemma set_bands_same (o : OutDataset F) : set_bands o (out_bands o) = o.
Proof. destruct o; reflexivity. Qed.

(** *** The properties of the specification *)

(** C9. A run that succeeds leaves an output dataset whose geotransform,
    projection and number of bands are those of the input dataset. *)
Theorem geometry_preserved (env : Env F) (p : Params F) (s : string) (w : World F) :
  processAlgorithm env p = (Ok (Some s), w) ->
  exists path ds o,
    raster_layer p = Some path /\ gdal_Open env path = Some ds /\
    output w = Some o /\
    out_geotransform o = GeoTransform ds /\
    out_projection o = Projection ds /\
    out_band_count o = RasterCount ds.
Proof.
  intros Hrun.
  destruct (run_success_output _ _ _ _ Hrun) as [o [Ho _]].
  destruct (run_output _ _ _ _ _ Hrun Ho) as [path [ds [obs [cl [Hp [Hd [Hr Heq]]]]]]].
  exists path, ds, o. subst o. cbn. repeat split; auto.
  unfold out_band_count, RasterCount; cbn.
  apply bands_rel_length in Hr. rewrite Hr, repeat_length. reflexivity.
Qed.

(** C4. In every band the run has written (the run sets the nodata value
    0 on the bands it writes, created bands have none), with any method,
    every position whose input sample equals the band's nodata value
    holds 0. *)
Theorem nodata_positions_zero (env : Env F) (p : Params F) r w o path ds
        (j : nat) (b : Band F) (ob : OutBand) (nd x : F) (k : nat) :
  processAlgorithm env p = (r, w) ->
  output w = Some o ->
  raster_layer p = Some path -> gdal_Open env path = Some ds ->
  nth_error (bands ds) j = Some b ->
  nth_error (out_bands o) j = Some ob ->
  out_nodata ob = Some 0 ->
  NoDataValue b = Some nd ->
  nth_error (samples b) k = Some x ->
  feqb x nd = true ->
  nth_error (pixels ob) k = Some 0.
Proof.
  intros Hrun Ho Hp Hd Hb Hob Hw Hnd Hx Heq.
  destruct (run_output _ _ _ _ _ Hrun Ho) as [path' [ds' [obs [cl [Hp' [Hd' [Hr Ho']]]]]]].
  rewrite Hp in Hp'; inversion Hp'; subst path'.
  rewrite Hd in Hd'; inversion Hd'; subst ds'.
  subst o; cbn [out_bands] in Hob.
  destruct (bands_rel_nth _ _ _ _ Hr _ _ _ Hb Hob) as [ob0 [H0 Hrel]].
  apply nth_error_In, repeat_spec in H0. subst ob0.
  destruct Hrel as [Hsame | [a [Ha Hwr]]].
  - subst ob. discriminate.
  - subst ob. cbn [pixels]. eapply enhance_masked; eauto.
    rewrite (nodata_mask_nth _ _ _ Hx), Hnd, Heq. reflexivity.
Qed.

(** C8. The cancellation flag is asked once at the start of each band.
    When the bands [bs1] have gone through and the flag is then found set
    (bands [bs2] are left), or no band is left, the run reads and writes
    no further band, closes both datasets and returns the output path;
    the bands written so far are kept and the others are as created. *)
Theorem cancellation_point (env : Env F) (p : Params F) path ds name
        (bs1 bs2 : list (Band F)) :
  raster_layer p = Some path ->
  gdal_Open env path = Some ds ->
  bands ds = bs1 ++ bs2 ->
  bands ds <> [] ->
  py_getitem methods (method_index p) = Ok name ->
  creatable env (output_path p) = true ->
  (forall k, (k < length bs1)%nat -> canceled env k = false) ->
  Forall (enhances p) bs1 ->
  (bs2 = [] \/ canceled env (length bs1) = true) ->
  exists w o,
    processAlgorithm env p = (Ok (Some (output_path p)), w) /\
    trace w = run_header p path ds name ++ loop_events (RasterCount ds) 1 bs1
              ++ stop_events bs2 ++ run_footer /\
    length (filter is_check (trace w)) = (length bs1 + length (stop_events bs2))%nat /\
    (forall j, Z.of_nat (length bs1) < j ->
               ~ In (ReadBand j) (trace w) /\ ~ In (WriteBand j) (trace w)) /\
    output w = Some o /\ out_closed o = true /\
    firstn (length bs1) (out_bands o) =
      written_bands p bs1 (repeat (new_band (RasterXSize ds) (RasterYSize ds))
                                  (length bs1)) /\
    skipn (length bs1) (out_bands o) =
      repeat (new_band (RasterXSize ds) (RasterYSize ds)) (length bs2).
Proof.
  intros Hp Hd Hb Hne Hm Hc Hk He Hstop.
  eexists. eexists. split; [eapply run_until; eassumption|].
  cbn [trace output close out_closed out_bands set_bands].
  assert (Hfresh : fresh_bands ds =
                   repeat (new_band (RasterXSize ds) (RasterYSize ds))
                          (length bs1 + length bs2)).
  { unfold fresh_bands. now rewrite Hb, length_app. }
  repeat split.
  - unfold run_header, run_footer.
    rewrite !filter_app, !length_app, loop_events_checks.
    destruct bs2; cbn; lia.
  - intros Hin. unfold run_header, run_footer in Hin.
    repeat (apply in_app_or in Hin; destruct Hin as [Hin | Hin]).
    + cbn in Hin. repeat (destruct Hin as [Hin | Hin]; [discriminate|]). contradiction.
    + apply loop_events_read in Hin. lia.
    + destruct bs2; cbn in Hin; [contradiction|].
      destruct Hin as [Hin|[]]; discriminate.
    + cbn in Hin. repeat (destruct Hin as [Hin | Hin]; [discriminate|]). contradiction.
  - intros Hin. unfold run_header, run_footer in Hin.
    repeat (apply in_app_or in Hin; destruct Hin as [Hin | Hin]).
    + cbn in Hin. repeat (destruct Hin as [Hin | Hin]; [discriminate|]). contradiction.
    + apply loop_events_write in Hin. lia.
    + destruct bs2; cbn in Hin; [contradiction|].
      destruct Hin as [Hin|[]]; discriminate.
    + cbn in Hin. repeat (destruct Hin as [Hin | Hin]; [discriminate|]). contradiction.
  - cbn [out_bands close set_bands].
    rewrite written_bands_firstn, Hfresh, firstn_repeat. reflexivity.
  - cbn [out_bands close set_bands].
    rewrite written_bands_skipn, Hfresh, skipn_repeat. reflexivity.
Qed.

(** C7. In a run that is not canceled and in which no enhancement
    raises, a band whose samples all equal its nodata value gets a
    warning and is left as created, all zero; every band with a valid
    sample is enhanced and written; the run returns the output path. *)
Theorem empty_band_skipped (env : Env F) (p : Params F) path ds name :
  raster_layer p = Some path ->
  gdal_Open env path = Some ds ->
  bands ds <> [] ->
  py_getitem methods (method_index p) = Ok name ->
  creatable env (output_path p) = true ->
  (forall k, (k < length (bands ds))%nat -> canceled env k = false) ->
  Forall (enhances p) (bands ds) ->
  exists w o,
    processAlgorithm env p = (Ok (Some (output_path p)), w) /\
    output w = Some o /\
    forall j b, nth_error (bands ds) j = Some b ->
      (forall nd, NoDataValue b = Some nd ->
                  Forall (fun x => feqb x nd = true) (samples b) ->
         In (PushWarning (MsgEmptyBand (Z.of_nat j + 1))) (trace w) /\
         ~ In (WriteBand (Z.of_nat j + 1)) (trace w) /\
         nth_error (out_bands o) j =
           Some {| pixels := repeat 0 (Z.to_nat (RasterXSize ds * RasterYSize ds));
                   out_nodata := None |}) /\
      (valid_data b <> [] ->
         exists a, enhance p b = Ok a /\
           nth_error (out_bands o) j = Some {| pixels := a; out_nodata := Some 0 |}).
Proof.
  intros Hp Hd Hne Hm Hc Hk He.
  eexists. eexists. split.
  { eapply (run_until env p path ds name (bands ds) []); eauto.
    symmetry; apply app_nil_r. }
  cbn [trace output]. split; [reflexivity|].
  cbn [out_bands close set_bands].
  intros j b Hj.
  assert (Hfresh : nth_error (fresh_bands ds) j =
                   Some (new_band (RasterXSize ds) (RasterYSize ds))).
  { unfold fresh_bands. apply nth_error_repeat.
    apply nth_error_Some. congruence. }
  pose proof (written_bands_nth p _ _ _ _ _ Hj Hfresh) as Hw.
  split.
  - intros nd Hnd Hall.
    pose proof (all_nodata_no_valid b nd Hnd Hall) as Hv.
    split; [|split].
    + apply in_or_app. right. apply in_or_app. left.
      replace (Z.of_nat j + 1) with (1 + Z.of_nat j) by lia.
      eapply loop_events_warning; eauto.
    + intros Hin. unfold run_header, run_footer, stop_events in Hin.
      repeat (apply in_app_or in Hin; destruct Hin as [Hin | Hin]).
      * cbn in Hin. repeat (destruct Hin as [Hin | Hin]; [discriminate|]). contradiction.
      * replace (Z.of_nat j + 1) with (1 + Z.of_nat j) in Hin by lia.
        eapply loop_events_write_valid in Hin; eauto.
      * contradiction.
      * cbn in Hin. repeat (destruct Hin as [Hin | Hin]; [discriminate|]). contradiction.
    + rewrite Hw. unfold written. rewrite Hv. reflexivity.
  - intros Hv. rewrite Forall_forall in He.
    destruct (He b (nth_error_In _ _ Hj) Hv) as [a Ha].
    exists a. split; [assumption|].
    rewrite Hw. unfold written. rewrite Ha.
    destruct (valid_data b); [congruence | reflexivity].
Qed.

(** The linear stretch gives every valid sample the cast of its stretched
    value; low and high are the two percentiles. *)
Lemma enhance_linear_stretch (p : Params F) (b : Band F) (low high : F) :
  method_index p = 0 ->
  np_percentile (valid_data b) (cut_percent p) = Ok low ->
  np_percentile (valid_data b) (fsub (of_Z 100) (cut_percent p)) = Ok high ->
  exists a,
    enhance p b = Ok a /\
    forall k x,
      nth_error (samples b) k = Some x ->
      nth_error (nodata_mask b) k = Some false ->
      nth_error a k = Some (astype_uint8 (stretch_value low high x)).
Proof.
  intros Hm Hlo Hhi. unfold enhance, linear_stretch.
  rewrite Hm, Hlo, Hhi. cbn [Z.eqb bind]. eexists. split; [reflexivity|].
  intros k x Hx Hmask.
  rewrite fill_where_other by assumption.
  unfold valid_data.
  apply (put_where_map_take
           (fun x => astype_uint8 (stretch_value low high x))).
  - apply length_map.
  - rewrite nth_error_map, Hmask. reflexivity.
  - assumption.
Qed.

(** C10, as the code has it. An index outside 0, 1, 2 selects no branch,
    but the run first looks the method name up in the three-element list:
    with -3, -2 or -1 (which Python counts from the end) a run that is not
    canceled writes every band that has a valid sample as zeros with
    nodata value 0 and returns the output path; with any other index the
    lookup raises IndexError before the output is created, and the run
    reports the error and returns the empty dictionary. *)
Theorem method_index_outside (env : Env F) (p : Params F) path ds :
  raster_layer p = Some path ->
  gdal_Open env path = Some ds ->
  bands ds <> [] ->
  (-3 <= method_index p < 0 ->
   creatable env (output_path p) = true ->
   (forall k, (k < length (bands ds))%nat -> canceled env k = false) ->
   exists w o,
     processAlgorithm env p = (Ok (Some (output_path p)), w) /\
     output w = Some o /\
     forall j b, nth_error (bands ds) j = Some b -> valid_data b <> [] ->
       nth_error (out_bands o) j =
         Some {| pixels := map (fun _ => 0) (samples b); out_nodata := Some 0 |})
  /\
  (method_index p < -3 \/ 2 < method_index p ->
   processAlgorithm env p =
     (Ok None,
      {| trace := [ GdalOpen path; ReportError (MsgError IndexError);
                    PushInfo (MsgTraceback IndexError); ReleaseDatasets ];
         output := None; cancel_calls := 0 |})).
Proof.
  intros Hp Hd Hne. split.
  - intros Hm Hc Hk.
    destruct (methods_negative_index _ Hm) as [name Hname].
    assert (He : Forall (enhances p) (bands ds)).
    { apply Forall_forall. intros b _ _. eexists. apply enhance_no_branch. lia. }
    eexists. eexists. split.
    { eapply (run_until env p path ds name (bands ds) []); eauto.
      symmetry; apply app_nil_r. }
    cbn [output]. split; [reflexivity|]. cbn [out_bands close set_bands].
    intros j b Hj Hv.
    assert (Hfresh : nth_error (fresh_bands ds) j =
                     Some (new_band (RasterXSize ds) (RasterYSize ds))).
    { unfold fresh_bands. apply nth_error_repeat. apply nth_error_Some. congruence. }
    rewrite (written_bands_nth p _ _ _ _ _ Hj Hfresh).
    unfold written. rewrite enhance_no_branch by lia.
    destruct (valid_data b); [congruence | reflexivity].
  - intros Hm. unfold processAlgorithm, try_block, release_locals. rewrite Hp, Hd.
    assert (Hn : (RasterCount ds =? 0) = false).
    { apply Z.eqb_neq. unfold RasterCount. destruct (bands ds); [congruence|].
      cbn [length]; lia. }
    rewrite Hn, (methods_index_error _ Hm). reflexivity.
Qed.

(** C3, as the code has it. [processAlgorithm] does not validate gamma.
    With a method other than gamma correction the run is the same for
    every gamma. With gamma correction and gamma equal to zero the run
    fails at the first band that has a valid sample, with a
    ZeroDivisionError raised after the output dataset was created and the
    band read; the error is reported and the empty dictionary returned,
    the datasets being released as the function returns. *)
Theorem gamma_not_validated (env : Env F) (p : Params F) :
  (method_index p <> 2 ->
   forall g, processAlgorithm env (with_gamma p g) = processAlgorithm env p)
  /\
  (method_index p = 2 -> feqb (gamma p) fzero = true ->
   forall path ds bs1 b bs2,
     raster_layer p = Some path ->
     gdal_Open env path = Some ds ->
     bands ds = bs1 ++ b :: bs2 ->
     creatable env (output_path p) = true ->
     (forall k, (k <= length bs1)%nat -> canceled env k = false) ->
     Forall (fun b' => valid_data b' = []) bs1 ->
     valid_data b <> [] ->
     processAlgorithm env p =
       (Ok None,
        {| trace := run_header p path ds "Gamma Correction"
                    ++ loop_events (RasterCount ds) 1 bs1
                    ++ [ IsCanceled false;
                         PushInfo (MsgBand (1 + Z.of_nat (length bs1)) (RasterCount ds));
                         ReadBand (1 + Z.of_nat (length bs1));
                         ReportError (MsgError ZeroDivisionError);
                         PushInfo (MsgTraceback ZeroDivisionError);
                         ReleaseDatasets ];
           output := Some (close (created p ds));
           cancel_calls := length bs1 + 1 |})).
Proof.
  split.
  - intros Hm g. unfold processAlgorithm, try_block, release_locals.
    cbn [with_gamma raster_layer method_index output_path].
    destruct (raster_layer p) as [path|]; [|reflexivity].
    destruct (gdal_Open env path) as [ds|]; [|reflexivity].
    destruct (RasterCount ds =? 0); [reflexivity|].
    destruct (py_getitem methods (method_index p)); [|reflexivity].
    destruct (creatable env (output_path p)); [|reflexivity].
    cbn [negb]. rewrite band_loop_ignores_gamma by assumption. reflexivity.
  - intros Hm Hg path ds bs1 b bs2 Hp Hd Hb Hc Hk Hempty Hv.
    unfold processAlgorithm, try_block, release_locals. rewrite Hp, Hd.
    assert (Hn : (RasterCount ds =? 0) = false).
    { apply Z.eqb_neq. unfold RasterCount. rewrite Hb, length_app. cbn [length]. lia. }
    rewrite Hn, Hm, Hc.
    change (py_getitem methods 2) with (@Ok string "Gamma Correction"%string).
    cbn [negb]. fold (created p ds).
    unfold emit, emits, set_output, initial_world; cbn [trace output cancel_calls app].
    rewrite Hb.
    rewrite (band_loop_prefix env p (RasterCount ds) bs1 (b :: bs2) 1 _ (created p ds) 0 []
               (fresh_bands ds)); auto.
    2: apply created_bands.
    2:{ unfold fresh_bands. rewrite repeat_length, Hb, length_app. lia. }
    2:{ intros k Hlt. apply Hk. cbn. lia. }
    2:{ eapply Forall_impl; [|exact Hempty]. intros b' Hb' Hne. congruence. }
    cbn [band_loop]. unfold band_iteration, ask_canceled.
    cbn [trace output cancel_calls]. rewrite Nat.add_0_l, (Hk _ (Nat.le_refl _)).
    rewrite (enhance_gamma_zero p b Hm Hg).
    destruct (valid_data b); [congruence|].
    unfold emits; cbn [trace output cancel_calls app option_map].
    rewrite (written_bands_all_empty p bs1 Hempty).
    unfold fresh_bands. rewrite <- (created_bands p ds), set_bands_same.
    unfold run_header; cbn [app]. rewrite <- !app_assoc. cbn [app].
    replace (S (length bs1)) with (length bs1 + 1)%nat by lia.
    reflexivity.
Qed.

End RunFacts.

(** ** Facts of binary64 *)

Section Binary64Facts.
Variable machine_cast : float -> Z.
Variable libm_pow : float -> float -> float.

#[local] Instance machine : Arith float := binary64 machine_cast.
#[local] Instance libm : Pow float := binary64_pow libm_pow.

Lemma b64_eqb_one (x : float) : PrimFloat.eqb x 1 = true -> x = 1%float.
Proof.
  rewrite FloatAxioms.eqb_spec. intros H. apply Prim2SF_inj.
  change (Prim2SF 1) with (S754_finite false 4503599627370496 (-52)) in *.
  unfold SFeqb, SFcompare in H.
  destruct (Prim2SF x) as [s | s | | s m e].
  - destruct s; discriminate.
  - destruct s; discriminate.
  - discriminate.
  - destruct s; cbv beta iota in H; [discriminate|].
    destruct (Z.compare e (-52)) eqn:He; try discriminate.
    destruct (Pos.compare_cont Eq m 4503599627370496) eqn:Hm'; try discriminate.
    apply Z.compare_eq in He. apply (Pos.compare_eq m) in Hm'.
    subst. reflexivity.
Qed.

Lemma b64_is_nan (x : float) : PrimFloat.is_nan x = true -> x = PrimFloat.nan.
Proof.
  unfold PrimFloat.is_nan. rewrite FloatAxioms.eqb_spec. intros H. apply Prim2SF_inj.
  change (Prim2SF nan) with S754_nan.
  unfold SFeqb, SFcompare in H.
  destruct (Prim2SF x) as [s | s | | s m e].
  - discriminate.
  - destruct s; discriminate.
  - reflexivity.
  - change (Pos.compare_cont Eq m m) with (Pos.compare m m) in H.
    rewrite Z.compare_refl, Pos.compare_refl in H. destruct s; discriminate.
Qed.

(** [pow(x, 1.0)] is [x], whatever the library does elsewhere. *)
Lemma pow_one (x : float) : fpow x 1%float = x.
Proof.
  cbn [fpow libm binary64_pow]. unfold B64.pow.
  change (PrimFloat.eqb 1 0) with false. cbn match.
  destruct (PrimFloat.eqb x 1) eqn:H1; [symmetry; now apply b64_eqb_one|].
  change (PrimFloat.is_nan 1) with false. rewrite orb_false_r.
  destruct (PrimFloat.is_nan x) eqn:Hn; [symmetry; now apply b64_is_nan|].
  reflexivity.
Qed.

(** C6. On binary64, for a band whose valid samples have a non-zero
    range, gamma correction with gamma = 1.0 gives every valid sample the
    value of the plain min-max normalization scaled to [0, 255]. *)
Theorem gamma_one_is_minmax (p : Params float) (b : Band float) :
  method_index p = 2 ->
  gamma p = 1%float ->
  feqb (fsub (np_max (valid_data b)) (np_min (valid_data b))) fzero = false ->
  exists a,
    enhance p b = Ok a /\
    forall k x,
      nth_error (samples b) k = Some x ->
      nth_error (nodata_mask b) k = Some false ->
      nth_error a k = Some (Spec.minmax_scaled (valid_data b) x).
Proof.
  intros Hm Hg Hr. unfold enhance, gamma_correction, normalize.
  rewrite Hm, Hg, Hr. cbn [Z.eqb Pos.eqb].
  change (py_truediv (of_Z 1) 1%float) with (@Ok float 1%float).
  cbn [bind]. eexists. split; [reflexivity|].
  intros k x Hx Hmask.
  rewrite fill_where_other by assumption.
  rewrite map_map.
  match goal with
  | |- nth_error (put_where _ _ (map ?g _)) _ = _ => set (f := g)
  end.
  unfold valid_data.
  rewrite (put_where_map_take f _ _ _ k x); auto.
  - subst f. cbv beta. unfold Spec.minmax_scaled. now rewrite pow_one.
  - apply length_map.
  - rewrite nth_error_map, Hmask. reflexivity.
Qed.

(** C1, at a band whose samples are all 5: the equalization gives 127
    to every pixel, and the linear stretch casts the NaN of 0/0, which
    leaves the value to the machine; only the gamma correction gives 0. *)
Theorem constant_band_outputs :
  let b := {| samples := [5; 5; 5]%float; NoDataValue := None |} in
  let p m := {| raster_layer := Some "in.tif"%string; method_index := m;
                cut_percent := 2%float; gamma := 1%float;
                output_path := "out.tif"%string |} in
  enhance (p 1) b = Ok [127; 127; 127] /\
  np_percentile (valid_data b) 2%float = Ok 5%float /\
  np_percentile (valid_data b) 98%float = Ok 5%float /\
  map (stretch_value 5%float 5%float) (valid_data b)
    = [PrimFloat.nan; PrimFloat.nan; PrimFloat.nan] /\
  enhance (p 0) b = Ok [machine_cast PrimFloat.nan; machine_cast PrimFloat.nan;
                        machine_cast PrimFloat.nan] /\
  enhance (p 2) b = Ok [0; 0; 0].
Proof.
  cbv zeta. repeat split; vm_compute; reflexivity.
Qed.

(** The truncation of the cast is the integer part. *)
Lemma trunc_integer_part (x : float) : B64.trunc x = Spec.integer_part x.
Proof.
  unfold B64.trunc, Spec.integer_part, B64.mag_down.
  destruct (Prim2SF x) as [s | s | | s m e]; try reflexivity.
  f_equal. destruct (0 <=? e) eqn:He.
  - apply Z.leb_le in He. rewrite Z.shiftl_mul_pow2 by lia. destruct s; ring.
  - apply Z.leb_gt in He. rewrite Z.shiftr_div_pow2 by lia.
    assert (Hpos : 0 < 2 ^ (- e)) by (apply Z.pow_pos_nonneg; lia).
    destruct s.
    + rewrite Z.quot_opp_l by lia. rewrite Z.quot_div_nonneg by lia. reflexivity.
    + rewrite Z.quot_div_nonneg by lia. reflexivity.
Qed.

(** C2, as the code has it. On binary64 the linear stretch maps every
    valid sample x to the integer part of the float64 value
    (clip(x, low, high) - low) / (high - low) * 255 whenever that integer
    part lies in 0..255: the cast to uint8 drops the fraction, it does not
    round. Where the value has no integer part in that range (it is NaN,
    infinite or out of range, as happens when high = low or when
    high - low overflows) the pixel is what the machine's cast makes of the
    value. low and high are the percentiles cut_percent and
    100 - cut_percent of the valid samples. *)
Theorem linear_stretch_truncates (p : Params float) (b : Band float)
        (low high : float) :
  method_index p = 0 ->
  np_percentile (valid_data b) (cut_percent p) = Ok low ->
  np_percentile (valid_data b) (PrimFloat.sub 100 (cut_percent p)) = Ok high ->
  exists a,
    enhance p b = Ok a /\
    forall k x,
      nth_error (samples b) k = Some x ->
      nth_error (nodata_mask b) k = Some false ->
      (forall z, Spec.integer_part (Spec.stretched low high x) = Some z ->
                 0 <= z <= 255 -> nth_error a k = Some z)
      /\
      ((forall z, Spec.integer_part (Spec.stretched low high x) = Some z ->
                  z < 0 \/ 255 < z) ->
       nth_error a k = Some (machine_cast (Spec.stretched low high x))).
Proof.
  intros Hm Hlo Hhi.
  destruct (enhance_linear_stretch p b low high Hm Hlo Hhi) as [a [Ha Hpix]].
  exists a. split; [exact Ha|]. intros k x Hx Hmask.
  specialize (Hpix k x Hx Hmask).
  change (stretch_value low high x) with (Spec.stretched low high x) in Hpix.
  unfold astype_uint8 in Hpix.
  change (ftrunc (Spec.stretched low high x))
    with (B64.trunc (Spec.stretched low high x)) in Hpix.
  change (cast_invalid (Spec.stretched low high x))
    with (machine_cast (Spec.stretched low high x)) in Hpix.
  rewrite trunc_integer_part in Hpix.
  split.
  - intros z Hz Hr. rewrite Hz in Hpix.
    replace ((0 <=? z) && (z <=? 255)) with true in Hpix; [exact Hpix|].
    symmetry. apply andb_true_iff. split; apply Z.leb_le; lia.
  - intros Hno.
    destruct (Spec.integer_part (Spec.stretched low high x)) as [z|];
      [|exact Hpix].
    replace ((0 <=? z) && (z <=? 255)) with false in Hpix; [exact Hpix|].
    symmetry. apply andb_false_iff.
    destruct (Hno z eq_refl); [left; apply Z.leb_gt | right; apply Z.leb_gt]; lia.
Qed.

(** The band -1.5 * 2^1023, 0, 1.5 * 2^1023 with cut_percent 0: low < high
    are finite but high - low overflows, the largest sample is stretched to
    NaN and its pixel is the machine's cast of NaN. *)
Example linear_stretch_overflow :
  let p := {| raster_layer := Some "in.tif"%string; method_index := 0;
              cut_percent := 0%float; gamma := 1%float;
              output_path := "out.tif"%string |} in
  np_percentile (valid_data ex_band_wide) 0%float = Ok (-0x1.8p1023)%float /\
  np_percentile (valid_data ex_band_wide) 100%float = Ok 0x1.8p1023%float /\
  PrimFloat.ltb (-0x1.8p1023) 0x1.8p1023 = true /\
  map (Spec.stretched (-0x1.8p1023) 0x1.8p1023) (samples ex_band_wide)
    = [0%float; 0%float; PrimFloat.nan] /\
  enhance p ex_band_wide = Ok [0; 0; machine_cast PrimFloat.nan].
Proof.
  cbv zeta. repeat split; vm_compute; reflexivity.
Qed.

(** C5 on binary64. When the samples span so little that the bin centres
    are less than about 2^-1018 apart, the slope of the interpolation
    between two centres, here (191 - 127) divided by the distance of the
    centres, overflows to infinity. The third sample lies between two
    centres and is interpolated to infinity, whose cast to uint8 C leaves
    to the machine, while its smaller neighbour gets 127 and its larger
    neighbour 191: the output is non-decreasing only on a machine that
    casts infinity to a value from 127 to 191. *)
Theorem equalization_overflow :
  (PrimFloat.ltb 0x1.8p-1060 0x1.cp-1060 = true /\
   PrimFloat.ltb 0x1.cp-1060 0x1.4p-1059 = true) /\
  equalization ex_tiny_samples
    = Ok [0; 127; machine_cast PrimFloat.infinity; 191; 255] /\
  equalization ex_small_samples
    = Ok [0; 127; machine_cast PrimFloat.infinity; 191; 255].
Proof.
  repeat split; vm_compute; reflexivity.
Qed.

End Binary64Facts.

(** ** The equalization in exact arithmetic *)

Section ExactEqualization.
#[local] Existing Instance exactQ.
#[local] Open Scope Q_scope.

Lemma exact_fltb (a b : Q) : fltb a b = true <-> a < b.
Proof.
  cbn. rewrite negb_true_iff, <- not_true_iff_false, Qle_bool_iff. split; intro H.
  - apply Qnot_le_lt; exact H.
  - apply Qlt_not_le; exact H.
Qed.

Lemma exact_fltb_false (a b : Q) : fltb a b = false <-> b <= a.
Proof.
  cbn. rewrite negb_false_iff. apply Qle_bool_iff.
Qed.

Lemma count_le_bound (x : Q) (xp : list Q) : (count_le x xp <= length xp)%nat.
Proof.
  induction xp as [|p xp IH]; cbn [count_le length]; [lia|].
  destruct (fltb x p); lia.
Qed.

Lemma count_le_prefix (x : Q) (xp : list Q) :
  forall k, (k < count_le x xp)%nat -> nth k xp fzero <= x.
Proof.
  induction xp as [|p xp IH]; intros k Hk; cbn [count_le] in Hk; [lia|].
  destruct (fltb x p) eqn:Hp; [lia|].
  apply exact_fltb_false in Hp.
  destruct k as [|k]; cbn [nth]; [exact Hp | apply IH; lia].
Qed.

Lemma count_le_next (x : Q) (xp : list Q) :
  (count_le x xp < length xp)%nat -> x < nth (count_le x xp) xp fzero.
Proof.
  induction xp as [|p xp IH]; cbn [count_le length]; [lia|].
  destruct (fltb x p) eqn:Hp.
  - intros _. cbn [nth]. now apply exact_fltb.
  - intros H. cbn [nth]. apply IH. lia.
Qed.

Lemma count_le_mono (x1 x2 : Q) (xp : list Q) :
  x1 <= x2 -> (count_le x1 xp <= count_le x2 xp)%nat.
Proof.
  intros Hx. induction xp as [|p xp IH]; cbn [count_le]; [lia|].
  destruct (fltb x1 p) eqn:H1; [lia|].
  destruct (fltb x2 p) eqn:H2; [|lia].
  apply exact_fltb_false in H1. apply exact_fltb in H2. lra.
Qed.

Lemma slope_facts (a b xj xj1 : Q) :
  a <= b -> xj < xj1 ->
  let s := (b - a) / (xj1 - xj) in 0 <= s /\ s * (xj1 - xj) == b - a.
Proof.
  intros Hab Hw. cbv zeta. split.
  - apply Qle_shift_div_l; lra.
  - field. intros H. lra.
Qed.

Lemma seg_bounds (a b xj xj1 x : Q) :
  a <= b -> xj <= x -> x < xj1 ->
  a <= (b - a) / (xj1 - xj) * (x - xj) + a <= b.
Proof.
  intros Hab H1 H2.
  destruct (slope_facts a b xj xj1 Hab ltac:(lra)) as [Hs Hw].
  set (s := (b - a) / (xj1 - xj)) in *.
  assert (0 <= s * (x - xj)) by (apply Qmult_le_0_compat; lra).
  assert (s * (x - xj) <= s * (xj1 - xj)) by (nra).
  lra.
Qed.

Lemma seg_mono (a b xj xj1 x1 x2 : Q) :
  a <= b -> xj <= x1 -> x1 <= x2 -> x2 < xj1 ->
  (b - a) / (xj1 - xj) * (x1 - xj) + a <= (b - a) / (xj1 - xj) * (x2 - xj) + a.
Proof.
  intros Hab H1 H12 H2.
  destruct (slope_facts a b xj xj1 Hab ltac:(lra)) as [Hs Hw].
  set (s := (b - a) / (xj1 - xj)) in *.
  nra.
Qed.

Lemma exact_interp (xp fp : list Q) (x : Q) :
  np_interp xp fp x =
  let n := length xp in
  match count_le x xp with
  | O => nth 0 fp fzero
  | S j =>
      if fltb (nth (n - 1) xp fzero) x then nth (n - 1) fp fzero
      else if Nat.eqb j (n - 1) then nth j fp fzero
      else if feqb (nth j xp fzero) x then nth j fp fzero
      else (nth (S j) fp fzero - nth j fp fzero) / (nth (S j) xp fzero - nth j xp fzero)
           * (x - nth j xp fzero) + nth j fp fzero
  end.
Proof. reflexivity. Qed.

(** The value lies between the table entries around the sample. *)
Lemma interp_lower (xp fp : list Q) (x : Q) (j : nat) :
  length fp = length xp -> nondecr fp ->
  count_le x xp = S j ->
  nth j fp fzero <= np_interp xp fp x.
Proof.
  intros Hlen Hfp Hc. rewrite exact_interp. cbv zeta. rewrite Hc.
  pose proof (count_le_bound x xp) as Hb. rewrite Hc in Hb.
  destruct (fltb _ x) eqn:Hlast.
  - apply Hfp. lia.
  - destruct (Nat.eqb_spec j (length xp - 1)) as [Hj | Hj]; [apply Qle_refl|].
    destruct (feqb _ x); [apply Qle_refl|].
    apply seg_bounds.
    + apply Hfp. lia.
    + apply count_le_prefix. lia.
    + rewrite <- Hc. apply count_le_next. lia.
Qed.

Lemma interp_upper (xp fp : list Q) (x : Q) :
  length fp = length xp -> nondecr fp ->
  np_interp xp fp x <= nth (length xp - 1) fp fzero.
Proof.
  intros Hlen Hfp. rewrite exact_interp. cbv zeta.
  pose proof (count_le_bound x xp) as Hb.
  destruct (count_le x xp) as [|j] eqn:Hc.
  - destruct xp as [|p xp]; [apply Qle_refl|]. apply Hfp. cbn [length] in *. lia.
  - destruct (fltb _ x) eqn:Hlast; [apply Qle_refl|].
    destruct (Nat.eqb_spec j (length xp - 1)) as [Hj | Hj]; [subst; apply Qle_refl|].
    destruct (feqb _ x); [apply Hfp; lia|].
    apply Qle_trans with (nth (S j) fp fzero).
    + apply seg_bounds.
      * apply Hfp. lia.
      * apply count_le_prefix. lia.
      * rewrite <- Hc. apply count_le_next. lia.
    + apply Hfp. lia.
Qed.

Lemma interp_upper_seg (xp fp : list Q) (x : Q) :
  length fp = length xp -> nondecr fp ->
  fltb (nth (length xp - 1) xp fzero) x = false ->
  (count_le x xp < length xp)%nat ->
  np_interp xp fp x <= nth (count_le x xp) fp fzero.
Proof.
  intros Hlen Hfp Hlast Hlt. rewrite exact_interp. cbv zeta.
  destruct (count_le x xp) as [|j] eqn:Hc; [apply Qle_refl|].
  rewrite Hlast.
  destruct (Nat.eqb_spec j (length xp - 1)) as [Hj | Hj]; [lia|].
  destruct (feqb _ x); [apply Hfp; lia|].
  apply seg_bounds.
  - apply Hfp. lia.
  - apply count_le_prefix. lia.
  - rewrite <- Hc. apply count_le_next. lia.
Qed.

(** Interpolation against a non-decreasing table is non-decreasing. *)
Lemma interp_monotone (xp fp : list Q) (x1 x2 : Q) :
  length fp = length xp -> nondecr fp ->
  x1 < x2 ->
  np_interp xp fp x1 <= np_interp xp fp x2.
Proof.
  intros Hlen Hfp Hx.
  pose proof (count_le_mono x1 x2 xp ltac:(lra)) as Hmono.
  pose proof (count_le_bound x2 xp) as Hb2.
  destruct (fltb (nth (length xp - 1) xp fzero) x2) eqn:Hlast2.
  - (* x2 beyond the last point *)
    destruct (count_le x2 xp) as [|j2] eqn:Hc2.
    + assert (Hc1 : count_le x1 xp = O) by lia.
      rewrite !exact_interp. cbv zeta. rewrite Hc1, Hc2. apply Qle_refl.
    + apply Qle_trans with (nth (length xp - 1) fp fzero);
        [now apply interp_upper|].
      rewrite (exact_interp xp fp x2). cbv zeta. rewrite Hc2, Hlast2. apply Qle_refl.
  - assert (Hlast1 : fltb (nth (length xp - 1) xp fzero) x1 = false).
    { apply exact_fltb_false in Hlast2. apply exact_fltb_false. lra. }
    destruct (Nat.eq_dec (count_le x1 xp) (count_le x2 xp)) as [Heq | Hne].
    + (* the same segment *)
      rewrite !exact_interp. cbv zeta. rewrite <- Heq, Hlast1, Hlast2.
      destruct (count_le x1 xp) as [|j] eqn:Hc1; [apply Qle_refl|].
      destruct (Nat.eqb_spec j (length xp - 1)) as [Hj | Hj]; [apply Qle_refl|].
      assert (Hp1 : nth j xp fzero <= x1) by (apply count_le_prefix; lia).
      assert (Hn2 : x2 < nth (S j) xp fzero).
      { rewrite Heq. apply count_le_next. lia. }
      assert (Hab : nth j fp fzero <= nth (S j) fp fzero) by (apply Hfp; lia).
      destruct (feqb (nth j xp fzero) x2) eqn:He2.
      { apply Qeq_bool_iff in He2. lra. }
      destruct (feqb (nth j xp fzero) x1) eqn:He1.
      * apply seg_bounds; lra.
      * apply seg_mono; lra.
    + (* x2 in a later segment *)
      destruct (count_le x2 xp) as [|j2] eqn:Hc2; [lia|].
      apply Qle_trans with (nth j2 fp fzero); [|now apply interp_lower].
      apply Qle_trans with (nth (count_le x1 xp) fp fzero).
      * apply interp_upper_seg; auto. lia.
      * apply Hfp. lia.
Qed.

(** *** The cast on exact values *)

Lemma Q_trunc_floor (q : Q) : 0 <= q -> Q_trunc q = Qfloor q.
Proof.
  destruct q as [n d]. unfold Qle, Q_trunc, Qfloor. cbn. intros H.
  apply Z.quot_div_nonneg; lia.
Qed.

Lemma exact_cast (v : Q) :
  0 <= v <= 255 -> astype_uint8 v = Qfloor v /\ (0 <= Qfloor v <= 255)%Z.
Proof.
  intros [H0 H255].
  assert (Hr : (0 <= Qfloor v <= 255)%Z).
  { split.
    - change 0%Z with (Qfloor 0). now apply Qfloor_resp_le.
    - change 255%Z with (Qfloor 255). now apply Qfloor_resp_le. }
  split; [|exact Hr].
  unfold astype_uint8. cbn [ftrunc exactQ]. rewrite (Q_trunc_floor v H0).
  destruct Hr as [Ha Hb].
  apply Z.leb_le in Ha. apply Z.leb_le in Hb. rewrite Ha, Hb. reflexivity.
Qed.

Lemma exact_cast_mono (v1 v2 : Q) :
  0 <= v1 -> v1 <= v2 -> v2 <= 255 -> (astype_uint8 v1 <= astype_uint8 v2)%Z.
Proof.
  intros H0 H12 H255.
  destruct (exact_cast v1 ltac:(lra)) as [-> _].
  destruct (exact_cast v2 ltac:(lra)) as [-> _].
  now apply Qfloor_resp_le.
Qed.

(** *** The lookup table *)

Lemma cumsum_from_ge (l : list Z) :
  Forall (fun c => 0 <= c)%Z l ->
  forall acc, Forall (fun c => acc <= c)%Z (cumsum_from acc l).
Proof.
  induction 1 as [|x l Hx Hl IH]; intros acc; cbn [cumsum_from]; constructor; [lia|].
  eapply Forall_impl; [|apply IH]. cbv beta. intros; lia.
Qed.

Lemma cumsum_from_nondecr (l : list Z) :
  Forall (fun c => 0 <= c)%Z l -> forall acc, nondecrZ (cumsum_from acc l).
Proof.
  induction 1 as [|x l Hx Hl IH]; intros acc i j a b Hi Hj Hij; cbn [cumsum_from] in *.
  - destruct i; discriminate.
  - destruct i as [|i], j as [|j]; cbn in Hi, Hj; try lia.
    + inversion Hi; inversion Hj; subst; lia.
    + inversion Hi; subst.
      pose proof (cumsum_from_ge l Hl (acc + x)) as Hge.
      rewrite Forall_forall in Hge. apply Hge. eapply nth_error_In; eauto.
    + eapply IH; eauto. lia.
Qed.

Lemma fold_min_le (l : list Z) : forall a,
  (fold_left Z.min l a <= a)%Z /\ Forall (fun x => fold_left Z.min l a <= x)%Z l.
Proof.
  induction l as [|x l IH]; intros a; cbn [fold_left]; [split; [lia|constructor]|].
  destruct (IH (Z.min a x)) as [H1 H2]. split; [lia|]. constructor; [lia|exact H2].
Qed.

Lemma fold_max_ge (l : list Z) : forall a,
  (a <= fold_left Z.max l a)%Z /\ Forall (fun x => x <= fold_left Z.max l a)%Z l.
Proof.
  induction l as [|x l IH]; intros a; cbn [fold_left]; [split; [lia|constructor]|].
  destruct (IH (Z.max a x)) as [H1 H2]. split; [lia|]. constructor; [lia|exact H2].
Qed.

Lemma Zlist_min_max (l : list Z) :
  Forall (fun x => Zlist_min l <= x <= Zlist_max l)%Z l.
Proof.
  destruct l as [|a l]; [constructor|]. unfold Zlist_min, Zlist_max.
  destruct (fold_min_le l a) as [H1 H2]. destruct (fold_max_ge l a) as [H3 H4].
  constructor; [lia|].
  rewrite Forall_forall in *. intros x Hx. split; auto.
Qed.

Lemma scaled_range (cmin cmax c : Z) :
  (cmin < cmax)%Z -> (cmin <= c <= cmax)%Z -> 0 <= scaled cmin cmax c <= 255.
Proof.
  intros Hlt Hc. unfold scaled. cbn [fdiv of_Z exactQ]. unfold Q_of_Z.
  assert (Hb : 0 < inject_Z (cmax - cmin)).
  { change 0 with (inject_Z 0). rewrite <- Zlt_Qlt. lia. }
  split.
  - apply Qle_shift_div_l; [exact Hb|]. rewrite Qmult_0_l.
    change 0 with (inject_Z 0). rewrite <- Zle_Qle. nia.
  - apply Qle_shift_div_r; [exact Hb|].
    change 255 with (inject_Z 255). rewrite <- inject_Z_mult, <- Zle_Qle. nia.
Qed.

Lemma scaled_mono (cmin cmax c c' : Z) :
  (cmin < cmax)%Z -> (c <= c')%Z -> scaled cmin cmax c <= scaled cmin cmax c'.
Proof.
  intros Hlt Hc. unfold scaled. cbn [fdiv of_Z exactQ]. unfold Q_of_Z, Qdiv.
  apply Qmult_le_compat_r.
  - rewrite <- Zle_Qle. nia.
  - apply Qlt_le_weak, Qinv_lt_0_compat.
    change 0 with (inject_Z 0). rewrite <- Zlt_Qlt. lia.
Qed.

Lemma scale_cdf_table (cdf : list Z) :
  nondecrZ cdf ->
  nondecrZ (scale_cdf cdf) /\ Forall (fun c => 0 <= c <= 255)%Z (scale_cdf cdf).
Proof.
  intros Hs. unfold scale_cdf.
  pose proof (Zlist_min_max cdf) as Hmm. rewrite Forall_forall in Hmm.
  destruct (Z.ltb_spec (Zlist_min cdf) (Zlist_max cdf)) as [Hlt | Hge].
  - split.
    + intros i j a b Hi Hj Hij.
      rewrite nth_error_map in Hi, Hj.
      destruct (nth_error cdf i) as [ci|] eqn:Hci; [|discriminate].
      destruct (nth_error cdf j) as [cj|] eqn:Hcj; [|discriminate].
      cbn [option_map] in Hi, Hj. inversion Hi; inversion Hj; subst a b.
      pose proof (Hmm _ (nth_error_In _ _ Hci)) as Hri.
      pose proof (Hmm _ (nth_error_In _ _ Hcj)) as Hrj.
      pose proof (scaled_range _ _ ci Hlt Hri) as Hsi.
      pose proof (scaled_range _ _ cj Hlt Hrj) as Hsj.
      assert (Hm : scaled (Zlist_min cdf) (Zlist_max cdf) ci
                   <= scaled (Zlist_min cdf) (Zlist_max cdf) cj).
      { apply scaled_mono; [exact Hlt|]. eapply Hs; eauto. }
      unfold scaled in Hsi, Hsj, Hm.
      apply exact_cast_mono; [apply Hsi | exact Hm | apply Hsj].
    + apply Forall_forall. intros z Hz. apply in_map_iff in Hz.
      destruct Hz as [c [Hc Hin]]. subst z.
      pose proof (scaled_range _ _ c Hlt (Hmm _ Hin)) as Hsc. unfold scaled in Hsc.
      destruct (exact_cast _ Hsc) as [-> Hr].
      exact Hr.
  - split.
    + intros i j a b Hi Hj _. rewrite nth_error_map in Hi, Hj.
      destruct (nth_error cdf i); [|discriminate].
      destruct (nth_error cdf j); [|discriminate].
      cbn [option_map] in Hi, Hj. inversion Hi; inversion Hj; subst. lia.
    + apply Forall_forall. intros z Hz. apply in_map_iff in Hz.
      destruct Hz as [c [Hc _]]. lia.
Qed.

(** *** The histogram *)

Lemma bincount_nonneg (idx : list Z) (n : nat) :
  Forall (fun c => 0 <= c)%Z (bincount idx n).
Proof.
  unfold bincount. apply Forall_forall. intros c Hc.
  apply in_map_iff in Hc. destruct Hc as [b [<- _]]. lia.
Qed.

Lemma bincount_length (idx : list Z) (n : nat) : length (bincount idx n) = n.
Proof. unfold bincount. now rewrite length_map, length_seq. Qed.

Lemma np_linspace_length {F : Type} {A : Arith F} (start stop : F) (num : nat) :
  (1 <= num)%nat -> length (np_linspace start stop num) = num.
Proof.
  intros H. unfold np_linspace.
  rewrite length_app, length_firstn, !length_map. cbn [length].
  destruct (feqb _ _); rewrite !length_map, length_seq; lia.
Qed.

Lemma np_histogram_shape {F : Type} {A : Arith F} (a : list F) (n : nat) (lo hi : F)
      (hist : list Z) (bins : list F) :
  np_histogram a n lo hi = Ok (hist, bins) ->
  Forall (fun c => 0 <= c)%Z hist /\ length hist = n /\ length bins = S n.
Proof.
  unfold np_histogram. intros H.
  destruct (fltb hi lo); [discriminate|].
  destruct (negb _); [discriminate|].
  destruct (some_edge_not_below_next _); [discriminate|].
  destruct (bin_indices _ _ _ _ _) as [idx|e]; [|discriminate].
  cbn [bind] in H. inversion H; subst.
  split; [apply bincount_nonneg|]. split; [apply bincount_length|].
  apply np_linspace_length. lia.
Qed.

Lemma cumsum_from_length (l : list Z) : forall acc, length (cumsum_from acc l) = length l.
Proof. induction l as [|x l IH]; intros acc; cbn; [reflexivity | now rewrite IH]. Qed.

Lemma scale_cdf_length {F : Type} {A : Arith F} (cdf : list Z) :
  length (scale_cdf cdf) = length cdf.
Proof. unfold scale_cdf. destruct (_ <? _)%Z; apply length_map. Qed.

Lemma bins_center_length {F : Type} {A : Arith F} (bins : list F) :
  length (bins_center bins) = (length bins - 1)%nat.
Proof.
  unfold bins_center.
  rewrite length_map, length_combine, removelast_firstn_len, length_firstn, length_tl. lia.
Qed.

Lemma table_nondecr (cdf : list Z) :
  nondecrZ cdf -> nondecr (map of_Z cdf).
Proof.
  intros Hs i j Hij. rewrite length_map in Hij.
  change fzero with (of_Z 0). rewrite !map_nth.
  cbn [of_Z exactQ]. unfold Q_of_Z. rewrite <- Zle_Qle.
  apply (Hs i j); [apply nth_error_nth'; lia | apply nth_error_nth'; lia | lia].
Qed.

Lemma table_range (cdf : list Z) (k : nat) :
  Forall (fun c => 0 <= c <= 255)%Z cdf -> 0 <= nth k (map of_Z cdf) fzero <= 255.
Proof.
  intros H. change fzero with (of_Z 0). rewrite map_nth.
  cbn [of_Z exactQ]. unfold Q_of_Z.
  assert (Hr : (0 <= nth k cdf 0 <= 255)%Z).
  { destruct (Nat.lt_ge_cases k (length cdf)) as [Hk | Hk].
    - rewrite Forall_forall in H. apply H. now apply nth_In.
    - rewrite nth_overflow by lia. lia. }
  change 0 with (inject_Z 0). change 255 with (inject_Z 255).
  rewrite <- !Zle_Qle. exact Hr.
Qed.

(** The formulas of the equalization are monotone: computed on rationals,
    where nothing is rounded and nothing overflows, a smaller sample never
    gets a larger output than a larger sample. This is a fact of the
    formulas only: the float64 computation of the program departs from it
    where the interpolation overflows. *)
Theorem exact_equalization_monotone (V : list Q) (out : list Z) (i j : nat)
        (x1 x2 : Q) (y1 y2 : Z) :
  equalization V = Ok out ->
  nth_error V i = Some x1 -> nth_error V j = Some x2 ->
  x1 < x2 ->
  nth_error out i = Some y1 -> nth_error out j = Some y2 ->
  (y1 <= y2)%Z.
Proof.
  unfold equalization. intros Heq H1 H2 Hlt Hy1 Hy2.
  destruct (np_histogram V 256 (np_min V) (np_max V)) as [[hist bins]|e] eqn:Hh;
    [|discriminate].
  cbn [bind] in Heq. inversion Heq; subst out; clear Heq.
  rewrite nth_error_map, H1 in Hy1. rewrite nth_error_map, H2 in Hy2.
  cbn [option_map] in Hy1, Hy2. inversion Hy1; inversion Hy2; subst y1 y2.
  destruct (np_histogram_shape _ _ _ _ _ _ Hh) as [Hnn [Hlh Hlb]].
  destruct (scale_cdf_table (cumsum hist) (cumsum_from_nondecr hist Hnn 0)) as [Hs Hr].
  set (cdf := scale_cdf (cumsum hist)) in *.
  set (xp := bins_center bins).
  assert (Hlen : length (map of_Z cdf) = length xp).
  { unfold xp, cdf. rewrite length_map, scale_cdf_length, bins_center_length.
    unfold cumsum. rewrite cumsum_from_length. lia. }
  pose proof (table_nondecr cdf Hs) as Hfp.
  apply exact_cast_mono.
  - destruct (count_le x1 xp) as [|c] eqn:Hc.
    + rewrite exact_interp. cbv zeta. rewrite Hc. apply table_range. exact Hr.
    + apply Qle_trans with (nth c (map of_Z cdf) fzero).
      * apply table_range. exact Hr.
      * now apply interp_lower.
  - now apply interp_monotone.
  - apply Qle_trans with (nth (length xp - 1) (map of_Z cdf) fzero).
    + now apply interp_upper.
    + apply table_range. exact Hr.
Qed.

End ExactEqualization.

(** ** Concrete runs on binary64 *)

(** C9 at the example raster, linear stretch. *)
Lemma geometry_preserved_witness :
  exists path ds o,
    raster_layer (ex_params 0 2 1) = Some path /\ gdal_Open (ex_env never) path = Some ds /\
    output (snd (ex_run never 0 2 1)) = Some o /\
    out_geotransform o = GeoTransform ds /\
    out_projection o = Projection ds /\
    out_band_count o = RasterCount ds.
Proof.
  apply (@geometry_preserved float ex_arith ex_libm (ex_env never) (ex_params 0 2 1)
           "out.tif"%string (snd (ex_run never 0 2 1))).
  vm_compute. reflexivity.
Defined.

(** C4 at the nodata pixel (position 2) of the first band. *)
Lemma nodata_positions_zero_witness :
  exists o ob,
    output (snd (ex_run never 1 2 1)) = Some o /\
    nth_error (out_bands o) 0 = Some ob /\
    nth_error (pixels ob) 2 = Some 0.
Proof.
  eexists. eexists. split; [vm_compute; reflexivity|]. split; [vm_compute; reflexivity|].
  eapply (@nodata_positions_zero float ex_arith ex_libm (ex_env never) (ex_params 1 2 1)
            (fst (ex_run never 1 2 1)) (snd (ex_run never 1 2 1)) _
            "in.tif"%string ex_raster 0%nat ex_band1 _ 50%float 50%float 2%nat);
    vm_compute; reflexivity.
Defined.

(** C8 at the example raster: cancellation answered at the second check,
    after band 1 of 3. *)
Lemma cancellation_point_witness :
  exists w o,
    ex_run at_second_check 0 2 1 = (Ok (Some "out.tif"%string), w) /\
    trace w = run_header (ex_params 0 2 1) "in.tif" ex_raster "Linear Stretch (Percentile)"
              ++ loop_events 3 1 [ex_band1]
              ++ stop_events [ex_band2; ex_band3] ++ run_footer /\
    length (filter is_check (trace w)) = 2%nat /\
    (forall j, 1 < j -> ~ In (ReadBand j) (trace w) /\ ~ In (WriteBand j) (trace w)) /\
    output w = Some o /\ out_closed o = true /\
    firstn 1 (out_bands o) = [ {| pixels := [0; 2; 0; 255]; out_nodata := Some 0 |} ] /\
    skipn 1 (out_bands o) = [ new_band 2 2; new_band 2 2 ].
Proof.
  apply (@cancellation_point float ex_arith ex_libm (ex_env at_second_check)
           (ex_params 0 2 1) "in.tif"%string ex_raster
           "Linear Stretch (Percentile)"%string [ex_band1] [ex_band2; ex_band3]).
  - reflexivity.
  - reflexivity.
  - reflexivity.
  - discriminate.
  - reflexivity.
  - reflexivity.
  - intros [|k] Hk; [reflexivity | cbn in Hk; lia].
  - ex_enhances.
  - right. reflexivity.
Defined.

(** C7 at the example raster, whose second band is nodata everywhere:
    equalization, never canceled. *)
Lemma empty_band_skipped_witness :
  exists w o,
    ex_run never 1 2 1 = (Ok (Some "out.tif"%string), w) /\
    output w = Some o /\
    forall j b, nth_error (bands ex_raster) j = Some b ->
      (forall nd, NoDataValue b = Some nd ->
                  Forall (fun x => PrimFloat.eqb x nd = true) (samples b) ->
         In (PushWarning (MsgEmptyBand (Z.of_nat j + 1))) (trace w) /\
         ~ In (WriteBand (Z.of_nat j + 1)) (trace w) /\
         nth_error (out_bands o) j =
           Some {| pixels := repeat 0 (Z.to_nat (2 * 2)); out_nodata := None |}) /\
      (@valid_data float ex_arith b <> [] ->
         exists a, @enhance float ex_arith ex_libm (ex_params 1 2 1) b = Ok a /\
           nth_error (out_bands o) j = Some {| pixels := a; out_nodata := Some 0 |}).
Proof.
  apply (@empty_band_skipped float ex_arith ex_libm (ex_env never) (ex_params 1 2 1)
           "in.tif"%string ex_raster "Equalization"%string).
  - reflexivity.
  - reflexivity.
  - discriminate.
  - reflexivity.
  - reflexivity.
  - intros; reflexivity.
  - ex_enhances.
Defined.

(** The same run, evaluated: the second band is left as
    created and the two others are equalized. *)
Example three_bands_one_nodata :
  option_map (fun o => map (@pixels) (out_bands o)) (output (snd (ex_run never 1 2 1)))
  = Some [ [0; 127; 0; 255]; [0; 0; 0; 0]; [0; 153; 255; 153] ].
Proof. vm_compute. reflexivity. Qed.

(** C10 refuted at method index 3: the run reports an IndexError and
    returns the empty dictionary, and no output dataset exists. *)
Lemma method_index_3_fails :
  ex_run never 3 2 1 =
  (Ok None,
   {| trace := [ GdalOpen "in.tif"; ReportError (MsgError IndexError);
                 PushInfo (MsgTraceback IndexError); ReleaseDatasets ];
      output := None; cancel_calls := 0 |}).
Proof. vm_compute. reflexivity. Qed.

(** C10 as amended, at method index -1 (first part) and 7 (second part). *)
Lemma method_index_outside_witness :
  (exists w o,
     ex_run never (-1) 2 1 = (Ok (Some "out.tif"%string), w) /\
     output w = Some o /\
     forall j b, nth_error (bands ex_raster) j = Some b ->
       @valid_data float ex_arith b <> [] ->
       nth_error (out_bands o) j =
         Some {| pixels := map (fun _ => 0) (samples b); out_nodata := Some 0 |})
  /\
  ex_run never 7 2 1 =
    (Ok None,
     {| trace := [ GdalOpen "in.tif"; ReportError (MsgError IndexError);
                   PushInfo (MsgTraceback IndexError); ReleaseDatasets ];
        output := None; cancel_calls := 0 |}).
Proof.
  split.
  - apply (proj1 (@method_index_outside float ex_arith ex_libm (ex_env never)
                    (ex_params (-1) 2 1) "in.tif"%string ex_raster
                    eq_refl eq_refl ltac:(discriminate))).
    + cbn; lia.
    + reflexivity.
    + intros; reflexivity.
  - apply (proj2 (@method_index_outside float ex_arith ex_libm (ex_env never)
                    (ex_params 7 2 1) "in.tif"%string ex_raster
                    eq_refl eq_refl ltac:(discriminate))).
    cbn; lia.
Defined.

(** C3 refuted: with gamma = -1 and the linear stretch the run succeeds
    and writes its bands; with gamma = 0 and the gamma correction the run
    fails only after the output was created and band 1 read. *)
Lemma negative_gamma_accepted :
  PrimFloat.leb (-1) 0 = true /\
  fst (ex_run never 0 2 (-1)) = Ok (Some "out.tif"%string) /\
  option_map (fun o => map (@pixels) (out_bands o)) (output (snd (ex_run never 0 2 (-1))))
    = Some [ [0; 2; 0; 255]; [0; 0; 0; 0]; [0; 101; 255; 101] ] /\
  fst (ex_run never 2 2 0) = Ok None /\
  trace (snd (ex_run never 2 2 0)) =
    [ GdalOpen "in.tif"; PushInfo (MsgProcessing 3 "Gamma Correction");
      GdalCreate "out.tif" 2 2 3; SetGeoTransform; SetProjection;
      IsCanceled false; PushInfo (MsgBand 1 3); ReadBand 1;
      ReportError (MsgError ZeroDivisionError);
      PushInfo (MsgTraceback ZeroDivisionError); ReleaseDatasets ].
Proof. vm_compute. repeat split; reflexivity. Qed.

(** C3 as amended, at the example raster. *)
Lemma gamma_not_validated_witness :
  ex_run never 0 2 (-1) = ex_run never 0 2 1 /\
  ex_run never 2 2 0 =
    (Ok None,
     {| trace := run_header (ex_params 2 2 0) "in.tif" ex_raster "Gamma Correction"
                 ++ loop_events 3 1 []
                 ++ [ IsCanceled false; PushInfo (MsgBand 1 3); ReadBand 1;
                      ReportError (MsgError ZeroDivisionError);
                      PushInfo (MsgTraceback ZeroDivisionError);
                      ReleaseDatasets ];
        output := Some (close (created (ex_params 2 2 0) ex_raster));
        cancel_calls := 1 |}).
Proof.
  split.
  - apply (proj1 (@gamma_not_validated float ex_arith ex_libm (ex_env never)
                    (ex_params 0 2 1)) ltac:(discriminate) (-1)%float).
  - apply (proj2 (@gamma_not_validated float ex_arith ex_libm (ex_env never)
                    (ex_params 2 2 0)) eq_refl eq_refl
                 "in.tif"%string ex_raster [] ex_band1 [ex_band2; ex_band3]).
    + reflexivity.
    + reflexivity.
    + reflexivity.
    + reflexivity.
    + intros; reflexivity.
    + constructor.
    + discriminate.
Defined.

(** C2 refuted at a band with the samples 0, 1 and 100 and cut_percent 0:
    low is 0 and high is 100, the sample 1 gives 2.55, which the
    specification's formula rounds to 3 and the code truncates to 2. *)
Lemma linear_stretch_rounds_down :
  np_percentile (valid_data ex_band_0_100) 0%float = Ok 0%float /\
  np_percentile (valid_data ex_band_0_100) 100%float = Ok 100%float /\
  PrimFloat.ltb 0 100 = true /\
  enhance (ex_params 0 0 1) ex_band_0_100 = Ok [0; 2; 255] /\
  map (Spec.linear_stretch_value 0%float 100%float) (samples ex_band_0_100)
    = [Some 0; Some 3; Some 255].
Proof. vm_compute. repeat split; reflexivity. Qed.

(** C2 as amended, at the same band. *)
Lemma linear_stretch_truncates_witness :
  exists a,
    enhance (ex_params 0 0 1) ex_band_0_100 = Ok a /\
    forall k x,
      nth_error (samples ex_band_0_100) k = Some x ->
      nth_error (nodata_mask ex_band_0_100) k = Some false ->
      (forall z, Spec.integer_part (Spec.stretched 0%float 100%float x) = Some z ->
                 0 <= z <= 255 -> nth_error a k = Some z)
      /\
      ((forall z, Spec.integer_part (Spec.stretched 0%float 100%float x) = Some z ->
                  z < 0 \/ 255 < z) ->
       nth_error a k = Some (ex_cast (Spec.stretched 0%float 100%float x))).
Proof.
  apply (linear_stretch_truncates ex_cast ex_pow (ex_params 0 0 1)
           ex_band_0_100 0%float 100%float); vm_compute; reflexivity.
Defined.

(** C6 at the third band of the example raster. *)
Lemma gamma_one_is_minmax_witness :
  exists a,
    enhance (ex_params 2 2 1) ex_band3 = Ok a /\
    forall k x,
      nth_error (samples ex_band3) k = Some x ->
      nth_error (nodata_mask ex_band3) k = Some false ->
      nth_error a k = Some (Spec.minmax_scaled (valid_data ex_band3) x).
Proof.
  apply (gamma_one_is_minmax ex_cast ex_pow (ex_params 2 2 1) ex_band3);
    vm_compute; reflexivity.
Defined.

(** The samples 5, 6 and 7 in exact arithmetic. *)
Lemma exact_equalization_monotone_example :
  @equalization Q exactQ [5#1; 6#1; 7#1]%Q = Ok [0; 63; 255] /\ 0 <= 63.
Proof.
  split; [vm_compute; reflexivity|].
  apply (exact_equalization_monotone [5#1; 6#1; 7#1]%Q [0; 63; 255] 0%nat 1%nat
           (5#1)%Q (6#1)%Q 0 63); vm_compute; reflexivity.
Defined.

(** ** Further properties of the run *)

Section MoreRunFacts.
Context {F : Type} {A : Arith F} {P : Pow F}.

Lemma band_loop_keeps_output (env : Env F) (p : Params F) n bs i w r w' o :
  band_loop env p n i bs w = (r, w') -> output w = Some o -> output w' <> None.
Proof.
  revert i w o. induction bs as [|b bs IH]; intros i w o Hrun Ho.
  - cbn in Hrun. inversion Hrun; subst. congruence.
  - cbn [band_loop] in Hrun. unfold band_iteration, ask_canceled in Hrun.
    destruct (canceled env (cancel_calls w)).
    + inversion Hrun; subst. cbn. congruence.
    + destruct (valid_data b).
      * eapply IH; [exact Hrun|]. cbn. exact Ho.
      * destruct (enhance p b).
        -- eapply IH; [exact Hrun|]. cbn. rewrite Ho. reflexivity.
        -- inversion Hrun; subst. cbn. congruence.
Qed.

(** X1. The output dataset exists after a run exactly when there is a
    layer, GDAL opens it, it has a band, the method index is one the
    three-element method list accepts (-3 to 2) and the output can be
    created: every other failure happens after the output was created. *)
Theorem output_created_iff (env : Env F) (p : Params F) :
  output (snd (processAlgorithm env p)) <> None <->
  exists path ds,
    raster_layer p = Some path /\ gdal_Open env path = Some ds /\
    bands ds <> [] /\ -3 <= method_index p <= 2 /\
    creatable env (output_path p) = true.
Proof.
  unfold processAlgorithm, try_block, release_locals.
  destruct (raster_layer p) as [path|].
  2:{ cbn. split; [congruence|]. intros [path [ds [H _]]]. discriminate. }
  destruct (gdal_Open env path) as [ds|] eqn:Hd.
  2:{ cbn. split; [congruence|]. intros [path' [ds [H1 [H2 _]]]].
      inversion H1; subst. congruence. }
  assert (Hcount : (RasterCount ds =? 0) = true <-> bands ds = []).
  { unfold RasterCount. rewrite Z.eqb_eq. destruct (bands ds); cbn [length]; split;
      intros H; try reflexivity; try discriminate; lia. }
  destruct (RasterCount ds =? 0) eqn:Hn.
  { cbn. split; [congruence|]. intros [path' [ds' [H1 [H2 [H3 _]]]]].
    inversion H1; subst. rewrite Hd in H2. inversion H2; subst.
    exfalso. apply H3, Hcount. reflexivity. }
  assert (Hne : bands ds <> []).
  { intros H. apply Hcount in H. discriminate. }
  destruct (Z_lt_le_dec (method_index p) (-3)) as [Hlo | Hlo].
  { rewrite methods_index_error by lia. cbn. split; [congruence|].
    intros [_ [_ [_ [_ [_ [H _]]]]]]. lia. }
  destruct (Z_lt_le_dec 2 (method_index p)) as [Hhi | Hhi].
  { rewrite methods_index_error by lia. cbn. split; [congruence|].
    intros [_ [_ [_ [_ [_ [H _]]]]]]. lia. }
  assert (Hname : exists name, py_getitem methods (method_index p) = Ok name).
  { destruct (Z_lt_le_dec (method_index p) 0) as [Hneg | Hpos].
    - apply methods_negative_index. lia.
    - assert (Hm : method_index p = 0 \/ method_index p = 1 \/ method_index p = 2) by lia.
      destruct Hm as [-> | [-> | ->]]; eexists; reflexivity. }
  destruct Hname as [name ->].
  destruct (creatable env (output_path p)) eqn:Hc; cbn [negb].
  2:{ cbn. split; [congruence|]. intros [_ [_ [_ [_ [_ [_ H]]]]]]. discriminate. }
  destruct (band_loop _ _ _ _ _ _) as [r' w'] eqn:Hloop.
  pose proof (band_loop_keeps_output _ _ _ _ _ _ _ _ _ Hloop eq_refl) as Hout.
  split.
  - intros _. exists path, ds. repeat split; auto.
  - intros _. destruct r' as [[]|e]; cbn;
      (destruct (output w'); [cbn; congruence | congruence]).
Qed.

(** X2. Every run ends in one of three ways. Without a layer it raises
    "Invalid layer" and does nothing. If the try block finishes, it returns
    the output path and the trace ends with the two closes and the
    completion message. Otherwise it returns the empty dictionary and the
    trace ends with the error report and the traceback of the exception,
    followed, when the raster had been opened, by the release of the
    datasets as the function returns. In the last two cases an output
    dataset that was created is closed when the run is over. *)
Theorem run_outcomes (env : Env F) (p : Params F) :
  let '(r, w) := processAlgorithm env p in
  (r = Raise (QgsProcessingException "Invalid layer")
   /\ raster_layer p = None /\ trace w = [] /\ output w = None)
  \/
  (r = Ok (Some (output_path p))
   /\ (exists t, trace w = t ++ [CloseOutput; CloseInput; PushInfo MsgComplete])
   /\ (exists o, output w = Some o /\ out_closed o = true))
  \/
  (r = Ok None
   /\ (exists path t e,
         raster_layer p = Some path /\
         trace w = t ++ [ReportError (MsgError e); PushInfo (MsgTraceback e)]
                     ++ match gdal_Open env path with
                        | Some _ => [ReleaseDatasets]
                        | None => []
                        end)
   /\ (forall o, output w = Some o -> out_closed o = true)).
Proof.
  destruct (processAlgorithm env p) as [r w] eqn:Hrun.
  pose proof Hrun as Hrun'.
  unfold processAlgorithm in Hrun.
  destruct (raster_layer p) as [path|] eqn:Hp.
  2:{ inversion Hrun; subst. left. repeat split; reflexivity. }
  right.
  destruct (try_block env p path initial_world) as [[[]|e] w1] eqn:Ht;
    inversion Hrun; subst; clear Hrun.
  - left. split; [reflexivity|].
    destruct (run_success_output _ _ _ _ Hrun') as [o [Ho Hc]].
    split; [|exists o; auto].
    unfold try_block in Ht.
    destruct (gdal_Open env path) as [ds|]; [|discriminate].
    destruct (RasterCount ds =? 0); [discriminate|].
    destruct (py_getitem methods (method_index p)); [|discriminate].
    destruct (negb _); [discriminate|].
    destruct (band_loop _ _ _ _ _ _) as [[[]|e] w2]; [|discriminate].
    inversion Ht; subst. cbn [trace emits set_output]. eexists. reflexivity.
  - right. split; [reflexivity|]. unfold release_locals.
    destruct (gdal_Open env path) as [ds|] eqn:Hd.
    + split.
      * exists path. rewrite Hd. unfold emit, emits, set_output; cbn [trace].
        eexists. eexists. split; [reflexivity|].
        rewrite <- app_assoc. reflexivity.
      * intros o Ho. unfold emit, emits, set_output in Ho; cbn [output] in Ho.
        destruct (output w1); cbn in Ho; inversion Ho; subst. reflexivity.
    + split.
      * exists path. rewrite Hd. eexists. eexists. split; [reflexivity|].
        cbn [trace emits]. rewrite app_nil_r. reflexivity.
      * intros o Ho. cbn [output emits] in Ho.
        unfold try_block in Ht. rewrite Hd in Ht. inversion Ht; subst.
        discriminate.
Qed.

(** X3. Whatever the outcome of a run, each band of the output dataset is
    either as created (zeros, no nodata value) or holds the enhancement of
    the input band with the same number, with as many pixels as that band
    has samples and nodata value 0: no band is written from another band's
    data. *)
Theorem output_band_frame (env : Env F) (p : Params F) r w o path ds
        (j : nat) (b : Band F) (ob : OutBand) :
  processAlgorithm env p = (r, w) ->
  output w = Some o ->
  raster_layer p = Some path -> gdal_Open env path = Some ds ->
  nth_error (bands ds) j = Some b ->
  nth_error (out_bands o) j = Some ob ->
  ob = new_band (RasterXSize ds) (RasterYSize ds) \/
  exists a, enhance p b = Ok a /\ length a = length (samples b) /\
            ob = {| pixels := a; out_nodata := Some 0 |}.
Proof.
  intros Hrun Ho Hp Hd Hb Hob.
  destruct (run_output _ _ _ _ _ Hrun Ho) as [path' [ds' [obs [cl [Hp' [Hd' [Hr Ho']]]]]]].
  rewrite Hp in Hp'; inversion Hp'; subst path'.
  rewrite Hd in Hd'; inversion Hd'; subst ds'.
  subst o; cbn [out_bands] in Hob.
  destruct (bands_rel_nth _ _ _ _ Hr _ _ _ Hb Hob) as [ob0 [H0 Hrel]].
  apply nth_error_In, repeat_spec in H0. subst ob0.
  destruct Hrel as [Hsame | [a [Ha Hwr]]]; [left; exact Hsame|].
  right. exists a. repeat split; auto. now apply (enhance_length p).
Qed.

(** Every branch computes the valid pixels by one function of the sample. *)
Lemma enhance_pointwise (p : Params F) (b : Band F) (a : list Z) :
  enhance p b = Ok a ->
  exists f : F -> Z,
    forall k x, nth_error (samples b) k = Some x ->
                nth_error (nodata_mask b) k = Some false ->
                nth_error a k = Some (f x).
Proof.
  unfold enhance. intros H.
  assert (Hput : forall (f : F -> Z) k x,
             nth_error (samples b) k = Some x ->
             nth_error (nodata_mask b) k = Some false ->
             nth_error (fill_where (nodata_mask b)
                          (put_where (map negb (nodata_mask b))
                             (map (fun _ => 0) (samples b)) (map f (valid_data b))) 0) k
             = Some (f x)).
  { intros f k x Hx Hm. rewrite fill_where_other by assumption.
    unfold valid_data. apply (put_where_map_take f).
    - apply length_map.
    - rewrite nth_error_map, Hm. reflexivity.
    - assumption. }
  destruct (method_index p =? 0);
    [|destruct (method_index p =? 1); [|destruct (method_index p =? 2)]];
    cbn [bind] in H.
  - unfold linear_stretch in H.
    destruct (np_percentile _ _) as [lo|]; [|discriminate].
    destruct (np_percentile _ _) as [hi|]; [|discriminate].
    cbn [bind] in H. inversion H; subst. eexists. apply Hput.
  - unfold equalization in H.
    destruct (np_histogram _ _ _ _) as [[hist bins]|]; [|discriminate].
    cbn [bind] in H. inversion H; subst. eexists. apply Hput.
  - unfold gamma_correction, normalize in H.
    destruct (py_truediv _ _) as [e|]; [|discriminate].
    cbn [bind] in H.
    destruct (feqb _ _); rewrite map_map in H; inversion H; subst;
      eexists; apply Hput.
  - inversion H; subst. exists (fun _ => 0). intros k x Hx Hm.
    rewrite fill_where_other by assumption. rewrite nth_error_map, Hx. reflexivity.
Qed.

(** X4. The enhancement is a point operation: with any method, two
    positions of a band that hold the same sample get the same pixel. *)
Theorem equal_samples_equal_pixels (p : Params F) (b : Band F) (a : list Z)
        (k1 k2 : nat) (x : F) :
  enhance p b = Ok a ->
  nth_error (samples b) k1 = Some x ->
  nth_error (samples b) k2 = Some x ->
  nth_error a k1 = nth_error a k2.
Proof.
  intros Ha H1 H2.
  pose proof (nodata_mask_nth b k1 x H1) as M1.
  pose proof (nodata_mask_nth b k2 x H2) as M2.
  destruct (match NoDataValue b with Some nd => feqb x nd | None => false end).
  - rewrite (enhance_masked p b a k1 Ha M1), (enhance_masked p b a k2 Ha M2).
    reflexivity.
  - destruct (enhance_pointwise p b a Ha) as [f Hf].
    rewrite (Hf k1 x H1 M1), (Hf k2 x H2 M2). reflexivity.
Qed.

(** X5. When the enhancement of a band raises, after the bands [bs1]
    went through, the run reports the exception and returns the empty
    dictionary; the output dataset keeps the bands written so far and the
    failing band and the later ones are untouched. The two closes of the
    source are not reached: the datasets are released, and so closed, as
    the function returns. *)
Theorem failure_leaves_partial_output (env : Env F) (p : Params F) path ds name
        (bs1 : list (Band F)) (b : Band F) (bs2 : list (Band F)) (e : exn) :
  raster_layer p = Some path ->
  gdal_Open env path = Some ds ->
  bands ds = bs1 ++ b :: bs2 ->
  py_getitem methods (method_index p) = Ok name ->
  creatable env (output_path p) = true ->
  (forall k, (k <= length bs1)%nat -> canceled env k = false) ->
  Forall (enhances p) bs1 ->
  valid_data b <> [] ->
  enhance p b = Raise e ->
  processAlgorithm env p =
    (Ok None,
     {| trace := run_header p path ds name
                 ++ loop_events (RasterCount ds) 1 bs1
                 ++ [ IsCanceled false;
                      PushInfo (MsgBand (1 + Z.of_nat (length bs1)) (RasterCount ds));
                      ReadBand (1 + Z.of_nat (length bs1));
                      ReportError (MsgError e);
                      PushInfo (MsgTraceback e);
                      ReleaseDatasets ];
        output := Some (close (set_bands (created p ds)
                                         (written_bands p bs1 (fresh_bands ds))));
        cancel_calls := length bs1 + 1 |}).
Proof.
  intros Hp Hd Hb Hm Hc Hk He Hv Hraise.
  unfold processAlgorithm, try_block, release_locals. rewrite Hp, Hd.
  assert (Hn : (RasterCount ds =? 0) = false).
  { apply Z.eqb_neq. unfold RasterCount. rewrite Hb, length_app. cbn [length]. lia. }
  rewrite Hn, Hm, Hc. cbn [negb]. fold (created p ds).
  unfold emit, emits, set_output, initial_world; cbn [trace output cancel_calls app].
  rewrite Hb.
  rewrite (band_loop_prefix env p (RasterCount ds) bs1 (b :: bs2) 1 _ (created p ds) 0 []
             (fresh_bands ds)); auto.
  2: apply created_bands.
  2:{ unfold fresh_bands. rewrite repeat_length, Hb, length_app. lia. }
  2:{ intros k Hlt. apply Hk. cbn. lia. }
  cbn [band_loop]. unfold band_iteration, ask_canceled.
  cbn [trace output cancel_calls]. rewrite Nat.add_0_l, (Hk _ (Nat.le_refl _)).
  rewrite Hraise.
  destruct (valid_data b); [congruence|].
  unfold emits; cbn [trace output cancel_calls app option_map].
  unfold run_header; cbn [app]. rewrite <- !app_assoc. cbn [app].
  replace (S (length bs1)) with (length bs1 + 1)%nat by lia.
  reflexivity.
Qed.

Lemma read_indices_app (t1 t2 : list event) :
  read_indices (t1 ++ t2) = read_indices t1 ++ read_indices t2.
Proof. unfold read_indices. apply flat_map_app. Qed.

Lemma band_loop_reads (env : Env F) (p : Params F) n bs :
  forall i w r w',
    band_loop env p n i bs w = (r, w') ->
    exists m, (m <= length bs)%nat /\
      read_indices (trace w') =
      read_indices (trace w) ++ map (fun k => i + Z.of_nat k) (seq 0 m).
Proof.
  induction bs as [|b bs IH]; intros i w r w' Hrun.
  - cbn in Hrun. inversion Hrun; subst. exists 0%nat. split; [cbn; lia|].
    cbn. now rewrite app_nil_r.
  - cbn [band_loop] in Hrun. unfold band_iteration, ask_canceled in Hrun.
    assert (Hshift : forall m, map (fun k => i + Z.of_nat k) (seq 0 (S m)) =
                               i :: map (fun k => i + 1 + Z.of_nat k) (seq 0 m)).
    { intros m. cbn [seq map]. rewrite Z.add_0_r. f_equal.
      rewrite <- seq_shift, map_map. apply map_ext. intros k. lia. }
    destruct (canceled env (cancel_calls w)).
    + inversion Hrun; subst. exists 0%nat. split; [cbn; lia|].
      cbn [trace]. rewrite read_indices_app. cbn. now rewrite app_nil_r.
    + destruct (valid_data b).
      * apply IH in Hrun. destruct Hrun as [m [Hm Hr]].
        exists (S m). split; [cbn; lia|]. rewrite Hr, Hshift.
        unfold emit, emits; cbn [trace]. rewrite !read_indices_app. cbn.
        rewrite <- !app_assoc. reflexivity.
      * destruct (enhance p b).
        -- apply IH in Hrun. destruct Hrun as [m [Hm Hr]].
           exists (S m). split; [cbn; lia|]. rewrite Hr, Hshift.
           unfold emit, emits, set_output; cbn [trace]. rewrite !read_indices_app. cbn.
           rewrite <- !app_assoc. reflexivity.
        -- inversion Hrun; subst. exists 1%nat. split; [cbn; lia|].
           unfold emits; cbn [trace]. rewrite !read_indices_app. cbn.
           rewrite Z.add_0_r, <- !app_assoc. reflexivity.
Qed.

(** X6. In every run the bands are read one after the other in ascending
    order, starting with band 1 and without a gap or a repetition: the
    bands read are 1, 2, ..., m for some m up to the number of bands. *)
Theorem bands_read_in_order (env : Env F) (p : Params F) :
  exists m : nat,
    read_indices (trace (snd (processAlgorithm env p)))
      = map (fun k => 1 + Z.of_nat k) (seq 0 m) /\
    forall path ds, raster_layer p = Some path -> gdal_Open env path = Some ds ->
                    (m <= length (bands ds))%nat.
Proof.
  unfold processAlgorithm, try_block, release_locals.
  destruct (raster_layer p) as [path|].
  2:{ exists 0%nat. split; [reflexivity|]. intros; lia. }
  destruct (gdal_Open env path) as [ds|] eqn:Hd.
  2:{ exists 0%nat. split; [reflexivity|]. intros; lia. }
  destruct (RasterCount ds =? 0).
  { exists 0%nat. split; [reflexivity|]. intros; lia. }
  destruct (py_getitem methods (method_index p)).
  2:{ exists 0%nat. split; [reflexivity|]. intros; lia. }
  destruct (negb _).
  { exists 0%nat. split; [reflexivity|]. intros; lia. }
  destruct (band_loop _ _ _ _ _ _) as [r' w'] eqn:Hloop.
  apply band_loop_reads in Hloop. destruct Hloop as [m [Hm Hr]].
  exists m. split.
  - destruct r' as [[]|e]; unfold emit, emits, set_output; cbn [snd trace];
      rewrite ?read_indices_app, Hr; cbn; now rewrite ?app_nil_r.
  - intros path' ds' H1 H2. inversion H1; subst. rewrite Hd in H2.
    inversion H2; subst. exact Hm.
Qed.

Lemma enhance_ignores_cut_percent (p : Params F) (c : F) (b : Band F) :
  method_index p <> 0 -> enhance (with_cut_percent p c) b = enhance p b.
Proof.
  intros H. unfold enhance. cbn [with_cut_percent method_index cut_percent gamma].
  replace (method_index p =? 0) with false by (symmetry; apply Z.eqb_neq; lia).
  reflexivity.
Qed.

Lemma band_loop_ignores_cut_percent (env : Env F) (p : Params F) (c : F) n bs :
  method_index p <> 0 ->
  forall i w, band_loop env (with_cut_percent p c) n i bs w = band_loop env p n i bs w.
Proof.
  intros H. induction bs as [|b bs IH]; intros i w; [reflexivity|].
  cbn [band_loop]. unfold band_iteration.
  rewrite (enhance_ignores_cut_percent p c b H).
  destruct (ask_canceled env w) as [a w1]. destruct a; [reflexivity|].
  destruct (valid_data b); [apply IH|].
  destruct (enhance p b); [apply IH | reflexivity].
Qed.

(** X10. The cut percentage is used by the linear stretch only: with any
    other method index the whole run (result, trace and output) is the
    same for every cut percentage, valid or not. *)
Theorem cut_percent_only_for_linear_stretch (env : Env F) (p : Params F) (c : F) :
  method_index p <> 0 ->
  processAlgorithm env (with_cut_percent p c) = processAlgorithm env p.
Proof.
  intros Hm. unfold processAlgorithm, try_block, release_locals.
  cbn [with_cut_percent raster_layer method_index output_path].
  destruct (raster_layer p) as [path|]; [|reflexivity].
  destruct (gdal_Open env path) as [ds|]; [|reflexivity].
  destruct (RasterCount ds =? 0); [reflexivity|].
  destruct (py_getitem methods (method_index p)); [|reflexivity].
  destruct (creatable env (output_path p)); [|reflexivity].
  cbn [negb]. rewrite band_loop_ignores_cut_percent by assumption. reflexivity.
Qed.

End MoreRunFacts.

(** ** Declared ranges and NaN on binary64 *)

Section DeclaredRanges.
Variable machine_cast : float -> Z.
Variable libm_pow : float -> float -> float.

#[local] Instance declared_machine : Arith float := binary64 machine_cast.
#[local] Instance declared_libm : Pow float := binary64_pow libm_pow.

Lemma b64_above_tenth_nonzero (g : float) :
  PrimFloat.leb 0.1 g = true -> PrimFloat.eqb g 0 = false.
Proof.
  rewrite FloatAxioms.leb_spec, FloatAxioms.eqb_spec.
  set (c := Prim2SF 0.1). vm_compute in c. subst c.
  change (Prim2SF 0) with (S754_zero false).
  unfold SFleb, SFeqb, SFcompare.
  destruct (Prim2SF g) as [s | s | | s m e]; intros H; try reflexivity.
  - discriminate.
  - destruct s; reflexivity.
  - destruct s; reflexivity.
Qed.

(** X7. A gamma within the range [initAlgorithm] declares (0.1 to 10)
    is not zero, so on binary64 the gamma correction of a band never
    raises: the division 1.0 / gamma is its only source of an exception. *)
Theorem declared_gamma_never_raises (p : Params float) (b : Band float) :
  method_index p = 2 ->
  acceptable GAMMA_parameter (gamma p) = true ->
  exists a, enhance p b = Ok a.
Proof.
  intros Hm Hacc. unfold acceptable in Hacc. apply andb_true_iff in Hacc.
  destruct Hacc as [Hmin _]. cbn [minValue GAMMA_parameter] in Hmin.
  apply b64_above_tenth_nonzero in Hmin.
  unfold enhance, gamma_correction, py_truediv. rewrite Hm. cbn [Z.eqb Pos.eqb].
  change (feqb (gamma p) fzero) with (PrimFloat.eqb (gamma p) 0). rewrite Hmin.
  cbn [bind]. eexists. reflexivity.
Qed.

Lemma b64_eqb_nan (x nd : float) :
  PrimFloat.is_nan nd = true -> PrimFloat.eqb x nd = false.
Proof.
  intros H. apply b64_is_nan in H. subst nd.
  rewrite FloatAxioms.eqb_spec. change (Prim2SF nan) with S754_nan.
  unfold SFeqb, SFcompare. destruct (Prim2SF x); reflexivity.
Qed.

(** X11. On binary64 a nodata value that is NaN masks nothing, since
    [data == nodata] is false at every sample, NaN samples included: all
    samples of the band count as valid. *)
Theorem nan_nodata_masks_nothing (b : Band float) (nd : float) :
  NoDataValue b = Some nd ->
  PrimFloat.is_nan nd = true ->
  nodata_mask b = map (fun _ => false) (samples b) /\ valid_data b = samples b.
Proof.
  intros Hnd Hnan.
  assert (Hm : nodata_mask b = map (fun _ => false) (samples b)).
  { unfold nodata_mask. rewrite Hnd. apply map_ext. intros x.
    change (PrimFloat.eqb x nd = false). now apply b64_eqb_nan. }
  split; [exact Hm|].
  unfold valid_data. rewrite Hm.
  generalize (samples b). intros l.
  induction l as [|x l IH]; [reflexivity|].
  cbn [map negb take_where]. f_equal. exact IH.
Qed.

End DeclaredRanges.

(** ** Concrete runs for the further properties *)

(** X3 at the third band of the example raster, equalization. *)
Lemma output_band_frame_witness :
  {| pixels := [0; 153; 255; 153]; out_nodata := Some 0 |} = new_band 2 2 \/
  exists a, enhance (ex_params 1 2 1) ex_band3 = Ok a /\
            length a = length (samples ex_band3) /\
            {| pixels := [0; 153; 255; 153]; out_nodata := Some 0 |}
            = {| pixels := a; out_nodata := Some 0 |}.
Proof.
  eapply (@output_band_frame float ex_arith ex_libm (ex_env never) (ex_params 1 2 1)
            (fst (ex_run never 1 2 1)) (snd (ex_run never 1 2 1)) _
            "in.tif"%string ex_raster 2%nat ex_band3 _);
    vm_compute; reflexivity.
Defined.

(** X4 at the two samples 7 of the third band, linear stretch. *)
Lemma equal_samples_equal_pixels_witness :
  enhance (ex_params 0 2 1) ex_band3 = Ok [0; 101; 255; 101] /\
  nth_error [0; 101; 255; 101] 1 = nth_error [0; 101; 255; 101] 3.
Proof.
  split; [vm_compute; reflexivity|].
  apply (@equal_samples_equal_pixels float ex_arith ex_libm (ex_params 0 2 1) ex_band3
           [0; 101; 255; 101] 1%nat 3%nat 7%float); vm_compute; reflexivity.
Defined.

(** X5 at a raster whose second band holds an infinite sample:
    equalization writes band 1 and fails at band 2. *)
Lemma failure_leaves_partial_output_witness :
  @processAlgorithm float ex_arith ex_libm ex_env_inf (ex_params 1 2 1) =
    (Ok None,
     {| trace := run_header (ex_params 1 2 1) "in.tif" ex_raster_inf "Equalization"
                 ++ loop_events 3 1 [ex_band1]
                 ++ [ IsCanceled false; PushInfo (MsgBand 2 3); ReadBand 2;
                      ReportError (MsgError (ValueError RangeNotFinite));
                      PushInfo (MsgTraceback (ValueError RangeNotFinite));
                      ReleaseDatasets ];
        output := Some (close (set_bands (created (ex_params 1 2 1) ex_raster_inf)
                                 (written_bands (ex_params 1 2 1) [ex_band1]
                                                (fresh_bands ex_raster_inf))));
        cancel_calls := 2 |}).
Proof.
  apply (@failure_leaves_partial_output float ex_arith ex_libm ex_env_inf
           (ex_params 1 2 1) "in.tif"%string ex_raster_inf "Equalization"%string
           [ex_band1] ex_band_inf [ex_band3]
           (ValueError RangeNotFinite)).
  - reflexivity.
  - reflexivity.
  - reflexivity.
  - reflexivity.
  - reflexivity.
  - intros; reflexivity.
  - ex_enhances.
  - discriminate.
  - vm_compute. reflexivity.
Defined.

(** X7 at gamma = 1 and the third band of the example raster. *)
Lemma declared_gamma_never_raises_witness :
  exists a, enhance (ex_params 2 2 1) ex_band3 = Ok a.
Proof.
  apply (declared_gamma_never_raises ex_cast ex_pow (ex_params 2 2 1) ex_band3);
    vm_compute; reflexivity.
Defined.

(** X10 at the example raster, equalization, cut percentage 2 against 75. *)
Lemma cut_percent_only_for_linear_stretch_witness :
  ex_run never 1 75 1 = ex_run never 1 2 1.
Proof.
  apply (@cut_percent_only_for_linear_stretch float ex_arith ex_libm (ex_env never)
           (ex_params 1 2 1) 75%float).
  discriminate.
Defined.

(** X11 at a band with a NaN sample and the nodata value NaN. *)
Lemma nan_nodata_masks_nothing_witness :
  let b := {| samples := [1; PrimFloat.nan; 3]%float; NoDataValue := Some PrimFloat.nan |} in
  @nodata_mask float ex_arith b = map (fun _ => false) (samples b) /\
  @valid_data float ex_arith b = samples b.
Proof.
  apply (nan_nodata_masks_nothing ex_cast
           {| samples := [1; PrimFloat.nan; 3]%float; NoDataValue := Some PrimFloat.nan |}
           PrimFloat.nan); reflexivity.
Defined.
